(** * ScoreForge: the text-command parser and the score builder

    A shallow embedding of [sheet_music_scanner/core/command_parser.py] and
    [sheet_music_scanner/core/command_executor.py], with the properties of the
    parser (tokenizer, line parser, diagnostics) and of the structural score
    builder (measure packing, ties, final measure) stated and proved on it.

    Conventions of the embedding.
    - A Python [str] is a [string]; its characters are code points 0..255.
      Text with other characters is outside the embedding: among them are
      the three letters that the patterns compiled with [re.IGNORECASE]
      take for [s] and [i] (U+017F, U+0130, U+0131) and the digits of other
      scripts, which [\d] takes.
    - A Python function that can raise returns an [outcome]; an object with
      mutable fields ([CommandParser.errors], [CommandExecutor._pending_tie])
      is a record that the operation takes and gives back.
    - A music21 object is represented by the data the builder puts into it;
      the music21 constructors that can refuse their argument ([pitch.Pitch],
      [key.Key], [meter.TimeSignature]) and the text music21 keeps of a
      lyric are variables of a section.
    - A quarter length is a rational number kept in lowest terms. *)

From Stdlib Require Import Bool Arith List Ascii String NArith ZArith QArith Qreduction Lia.
Import ListNotations.
Local Close Scope Q_scope.
Local Open Scope nat_scope.
Local Open Scope string_scope.
Local Open Scope list_scope.

(** ** Python string primitives *)

Module PyStr.

Definition code (c : ascii) : N := N_of_ascii c.

Definition between (lo hi : N) (c : ascii) : bool :=
  ((lo <=? code c) && (code c <=? hi))%N.

(** [str.isspace] on one character: TAB..CR, FS..US, SPACE, NEL, NBSP. *)
Definition isspace (c : ascii) : bool :=
  between 9 13 c || between 28 32 c || (code c =? 133)%N || (code c =? 160)%N.

(** [\d] of the [re] module. *)
Definition isdigit (c : ascii) : bool := between 48 57 c.

Definition lower_char (c : ascii) : ascii :=
  if between 65 90 c || (between 192 222 c && negb (code c =? 215)%N)
  then ascii_of_N (code c + 32) else c.

(** [str.upper] is only applied by the parser to tokens of the pitch
    grammar, whose characters are ASCII. *)
Definition upper_char (c : ascii) : ascii :=
  if between 97 122 c then ascii_of_N (code c - 32) else c.

Fixpoint map_chars (f : ascii -> ascii) (s : string) : string :=
  match s with
  | EmptyString => EmptyString
  | String c r => String (f c) (map_chars f r)
  end.

Definition lower : string -> string := map_chars lower_char.
Definition upper : string -> string := map_chars upper_char.

Definition is_empty (s : string) : bool :=
  match s with EmptyString => true | _ => false end.

Fixpoint lstrip (s : string) : string :=
  match s with
  | EmptyString => EmptyString
  | String c r => if isspace c then lstrip r else s
  end.

Fixpoint rstrip (s : string) : string :=
  match s with
  | EmptyString => EmptyString
  | String c r =>
      let r' := rstrip r in
      if isspace c && is_empty r' then EmptyString else String c r'
  end.

Definition strip (s : string) : string := rstrip (lstrip s).

(** [s.rstrip(".")] *)
Fixpoint rstrip_dot (s : string) : string :=
  match s with
  | EmptyString => EmptyString
  | String c r =>
      let r' := rstrip_dot r in
      if Ascii.eqb c "." && is_empty r' then EmptyString else String c r'
  end.

Fixpoint startswith (s p : string) {struct p} : bool :=
  match p, s with
  | EmptyString, _ => true
  | String a p', String b s' => Ascii.eqb a b && startswith s' p'
  | String _ _, EmptyString => false
  end.

(** [s.endswith(c)] for a one-character suffix. *)
Fixpoint endswith_char (s : string) (c : ascii) : bool :=
  match s with
  | EmptyString => false
  | String a EmptyString => Ascii.eqb a c
  | String _ r => endswith_char r c
  end.

(** [s[:-1]] *)
Fixpoint drop_last (s : string) : string :=
  match s with
  | EmptyString => EmptyString
  | String _ EmptyString => EmptyString
  | String a r => String a (drop_last r)
  end.

(** [s[1:]] *)
Definition drop_first (s : string) : string :=
  match s with
  | EmptyString => EmptyString
  | String _ r => r
  end.

(** [s[1:-1]] *)
Definition slice_1_m1 (s : string) : string := drop_last (drop_first s).

(** [s[i]] where the caller has checked [i < len(s)]. *)
Definition char_at (s : string) (i : nat) : option ascii := String.get i s.

(** [s.split(sep)] for a one-character separator: never the empty list. *)
Fixpoint split_char (sep : ascii) (s : string) : list string :=
  match s with
  | EmptyString => [EmptyString]
  | String c r =>
      if Ascii.eqb c sep then EmptyString :: split_char sep r
      else match split_char sep r with
           | [] => [String c EmptyString]
           | w :: ws => String c w :: ws
           end
  end.

(** [s.split()]: maximal runs of characters that are not white space. *)
Fixpoint split_ws_aux (cur : string) (s : string) : list string :=
  match s with
  | EmptyString => if is_empty cur then [] else [cur]
  | String c r =>
      if isspace c
      then (if is_empty cur then split_ws_aux EmptyString r
            else cur :: split_ws_aux EmptyString r)
      else split_ws_aux (cur ++ String c EmptyString) r
  end.

Definition split_ws (s : string) : list string := split_ws_aux EmptyString s.

(** A leading run of decimal digits, as [int] reads it. *)
Fixpoint digits_value (acc : N) (s : string) : N :=
  match s with
  | EmptyString => acc
  | String c r =>
      if isdigit c then digits_value (acc * 10 + (code c - 48)) r else acc
  end.

End PyStr.

(** ** Outcomes of Python code *)

Inductive exn : Type :=
| IndexError
| ZeroDivisionError
| AttributeError
| ValueError
| Music21Exception
| CommandParseError (message : string) (position line : nat).

(** [Diverged] is what a loop of the model answers when it is stopped
    before its guard turned false. *)
Inductive outcome (A : Type) : Type :=
| Returned (a : A)
| Raised (e : exn)
| Diverged.

Arguments Returned {A} a.
Arguments Raised {A} e.
Arguments Diverged {A}.

Definition bind {A B : Type} (m : outcome A) (k : A -> outcome B) : outcome B :=
  match m with
  | Returned a => k a
  | Raised e => Raised e
  | Diverged => Diverged
  end.

Declare Scope py_scope.
Delimit Scope py_scope with py.
Notation "x <- m ;; k" := (bind m (fun x => k))
  (at level 61, m at next level, right associativity) : py_scope.
Notation "' pat <- m ;; k" := (bind m (fun x => match x with pat => k end))
  (at level 61, pat pattern, m at next level, right associativity) : py_scope.

(** [l[i]]: raises [IndexError] out of range. *)
Definition index {A : Type} (l : list A) (i : nat) : outcome A :=
  match nth_error l i with
  | Some a => Returned a
  | None => Raised IndexError
  end.

(** [int(s)] on a run of decimal digits: above 4300 digits, the default
    limit of the conversion, it raises [ValueError]. *)
Definition int_max_str_digits : nat := 4300.

Definition int_of_digits (s : string) : outcome N :=
  if (String.length s <=? int_max_str_digits)%nat
  then Returned (PyStr.digits_value 0 s)
  else Raised ValueError.

(** ** The element model ([command_parser.py], lines 47-131) *)

Inductive Duration : Type :=
| WHOLE | HALF | QUARTER | EIGHTH | SIXTEENTH | THIRTYSECOND.

Definition Duration_value (d : Duration) : string :=
  match d with
  | WHOLE => "w" | HALF => "h" | QUARTER => "q"
  | EIGHTH => "e" | SIXTEENTH => "s" | THIRTYSECOND => "t"
  end.

Definition Duration_members : list Duration :=
  [WHOLE; HALF; QUARTER; EIGHTH; SIXTEENTH; THIRTYSECOND].

Definition Duration_eqb (a b : Duration) : bool :=
  String.eqb (Duration_value a) (Duration_value b).

(** [Duration.from_code] *)
Definition from_code (code : string) : option Duration :=
  let code := PyStr.rstrip_dot (PyStr.lower code) in
  find (fun d => String.eqb (Duration_value d) code) Duration_members.

Record ParsedNote : Type := mkParsedNote {
  pitch : string;
  duration : Duration;
  dotted : bool;
  lyric : option string;
  tied : bool;
  slurred : bool
}.

(** [ParsedNote(pitch=p)]: every other field at its default. *)
Definition ParsedNote_of_pitch (p : string) : ParsedNote :=
  mkParsedNote p QUARTER false None false false.

Record ParsedRest : Type := mkParsedRest {
  rest_duration : Duration;
  rest_dotted : bool
}.

Record ParsedChord : Type := mkParsedChord {
  notes : list ParsedNote;
  chord_duration : Duration;
  chord_dotted : bool;
  chord_lyric : option string
}.

Record ParsedBarline : Type := mkParsedBarline { style : string }.

Record ParsedCommand : Type := mkParsedCommand {
  command : string;
  value : string
}.

Inductive ParsedElement : Type :=
| Note (n : ParsedNote)
| Rest (r : ParsedRest)
| Chord (c : ParsedChord)
| Barline (b : ParsedBarline)
| Command (c : ParsedCommand).

(** ** The regular expressions of [CommandParser] (lines 151-168) *)

Module Re.
Import PyStr.

Definition dquote : ascii := "034"%char.
Definition newline : ascii := "010"%char.

(** [$]: at the end of the string, or before a newline that ends it. *)
Definition at_dollar (s : string) : bool :=
  match s with
  | EmptyString => true
  | String c EmptyString => Ascii.eqb c newline
  | _ => false
  end.

Definition pitch_letter (c : ascii) : bool := between 65 71 c || between 97 103 c.
Definition accidental (c : ascii) : bool := Ascii.eqb c "#" || Ascii.eqb c "b".

(** [(\d)$] *)
Definition octave_end (s : string) : bool :=
  match s with
  | String d r => isdigit d && at_dollar r
  | EmptyString => false
  end.

(** [PITCH_PATTERN.match]: [^([A-Ga-g])([#b]{0,2})(\d)$]. *)
Definition PITCH_PATTERN (s : string) : bool :=
  match s with
  | String c r =>
      pitch_letter c &&
      (octave_end r ||
       match r with
       | String a r1 =>
           accidental a &&
           (octave_end r1 ||
            match r1 with
            | String a2 r2 => accidental a2 && octave_end r2
            | EmptyString => false
            end)
       | EmptyString => false
       end)
  | EmptyString => false
  end.

Definition duration_letter (c : ascii) : bool :=
  existsb (Ascii.eqb (lower_char c)) ["w"; "h"; "q"; "e"; "s"; "t"]%char.

(** [DURATION_PATTERN.match]: [^([whqest])(\.?)$], ignoring case; the
    result is the pair of the two groups. *)
Definition DURATION_PATTERN (s : string) : option (string * string) :=
  match s with
  | String c r =>
      if duration_letter c then
        match r with
        | String "."%char r' =>
            if at_dollar r' then Some (String c EmptyString, ".") else None
        | _ => if at_dollar r then Some (String c EmptyString, "") else None
        end
      else None
  | EmptyString => None
  end.

Fixpoint until_quote (s : string) : option string :=
  match s with
  | EmptyString => None
  | String c r =>
      if Ascii.eqb c dquote then Some EmptyString
      else option_map (String c) (until_quote r)
  end.

(** [LYRIC_PATTERN.match]: a quote, characters other than a quote, a
    quote, at the start of the token; the result is the group. *)
Definition LYRIC_PATTERN (s : string) : option string :=
  match s with
  | String c r => if Ascii.eqb c dquote then until_quote r else None
  | EmptyString => None
  end.

(** The longest prefix without a newline, and what follows it. *)
Fixpoint span_line (s : string) : string * string :=
  match s with
  | EmptyString => (EmptyString, EmptyString)
  | String c r =>
      if Ascii.eqb c newline then (EmptyString, s)
      else let '(a, b) := span_line r in (String c a, b)
  end.

(** [(.+)$] *)
Definition dot_plus_dollar (s : string) : option string :=
  let '(a, b) := span_line s in
  if negb (is_empty a) && at_dollar b then Some a else None.

(** [\s*(.+)$], the white space taken greedily. *)
Fixpoint command_value (s : string) : option string :=
  match s with
  | EmptyString => None
  | String c r =>
      if isspace c then
        match command_value r with
        | Some v => Some v
        | None => dot_plus_dollar s
        end
      else dot_plus_dollar s
  end.

(** A keyword at the start of [s], ignoring case: the text matched and
    the rest. *)
Fixpoint keyword (kw s : string) : option (string * string) :=
  match kw, s with
  | EmptyString, _ => Some (EmptyString, s)
  | String k kw', String c s' =>
      if Ascii.eqb (lower_char c) k then
        match keyword kw' s' with
        | Some (m, r) => Some (String c m, r)
        | None => None
        end
      else None
  | String _ _, EmptyString => None
  end.

Definition command_alternative (kw line : string) : option (string * string) :=
  match keyword kw line with
  | Some (m, String ":"%char r) =>
      match command_value r with
      | Some v => Some (m, v)
      | None => None
      end
  | _ => None
  end.

Fixpoint first_alternative (kws : list string) (line : string)
  : option (string * string) :=
  match kws with
  | [] => None
  | kw :: kws' =>
      match command_alternative kw line with
      | Some g => Some g
      | None => first_alternative kws' line
      end
  end.

(** [COMMAND_PATTERN.match]: [^(key|time|tempo|clef):\s*(.+)$], ignoring
    case; the result is the pair of the two groups. *)
Definition COMMAND_PATTERN : string -> option (string * string) :=
  first_alternative ["key"; "time"; "tempo"; "clef"].

(** The longest run of digits at the start of the string. *)
Fixpoint digits_run (s : string) : string :=
  match s with
  | EmptyString => EmptyString
  | String c r => if isdigit c then String c (digits_run r) else EmptyString
  end.

(** [re.search] of a run of digits: the group of the first match, which is
    the first run of digits of the string. *)
Fixpoint search_digits (s : string) : option string :=
  match s with
  | EmptyString => None
  | String c r => if isdigit c then Some (digits_run s) else search_digits r
  end.

End Re.

(** [BARLINE_PATTERNS] *)
Definition BARLINE_PATTERNS : list (string * string) :=
  [("|||", "final"); ("||", "double"); ("|", "single"); ("measure", "single")].

Fixpoint dict_get (d : list (string * string)) (k : string) : option string :=
  match d with
  | [] => None
  | (k', v) :: d' => if String.eqb k k' then Some v else dict_get d' k
  end.

(** ** The tokenizer and the token parsers ([command_parser.py], lines 207-425) *)

Local Open Scope py_scope.

Definition is_nil {A : Type} (l : list A) : bool :=
  match l with [] => true | _ => false end.

Record tokenizer : Type := mkTokenizer {
  tokens : list string;
  current : string;
  in_quotes : bool;
  in_brackets : bool
}.

(** [if current.strip(): tokens.append(current.strip())] *)
Definition flush (tokens : list string) (current : string) : list string :=
  if PyStr.is_empty (PyStr.strip current) then tokens
  else tokens ++ [PyStr.strip current].

Definition push (s : string) (c : ascii) : string := (s ++ String c EmptyString)%string.

(** The body of the loop of [_tokenize]. *)
Definition tokenize_char (st : tokenizer) (char : ascii) : tokenizer :=
  if Ascii.eqb char Re.dquote then
    mkTokenizer (tokens st) (push (current st) char) (negb (in_quotes st)) (in_brackets st)
  else if Ascii.eqb char "[" then
    mkTokenizer (flush (tokens st) (current st)) (String char EmptyString) (in_quotes st) true
  else if Ascii.eqb char "]" then
    mkTokenizer (tokens st ++ [PyStr.strip (push (current st) char)]) EmptyString
                (in_quotes st) false
  else if PyStr.isspace char && negb (in_quotes st) && negb (in_brackets st) then
    mkTokenizer (flush (tokens st) (current st)) EmptyString (in_quotes st) (in_brackets st)
  else
    mkTokenizer (tokens st) (push (current st) char) (in_quotes st) (in_brackets st).

Fixpoint tokenize_chars (st : tokenizer) (line : string) : tokenizer :=
  match line with
  | EmptyString => st
  | String char rest => tokenize_chars (tokenize_char st char) rest
  end.

Definition _tokenize (line : string) : list string :=
  let st := tokenize_chars (mkTokenizer [] EmptyString false false) line in
  flush (tokens st) (current st).

Definition _is_pitch (token : string) : bool := Re.PITCH_PATTERN token.

Definition _parse_duration_token (token : string) : option Duration * bool :=
  match Re.DURATION_PATTERN token with
  | Some (g1, g2) => (from_code g1, String.eqb g2 ".")
  | None => (None, false)
  end.

(** Lines 347-353 and 406-411: an optional duration token at [consumed]. *)
Definition look_for_duration (tokens : list string) (consumed : nat)
  : outcome (Duration * bool * nat) :=
  if (consumed <? List.length tokens)%nat then
    next_token <- index tokens consumed ;;
    match _parse_duration_token next_token with
    | (Some dur, dot) => Returned (dur, dot, consumed + 1)
    | (None, _) => Returned (QUARTER, false, consumed)
    end
  else Returned (QUARTER, false, consumed).

(** Lines 355-359 and 414-418: an optional lyric token at [consumed]. *)
Definition look_for_lyric (tokens : list string) (consumed : nat)
  : outcome (option string * nat) :=
  if (consumed <? List.length tokens)%nat then
    token <- index tokens consumed ;;
    match Re.LYRIC_PATTERN token with
    | Some g => Returned (Some g, consumed + 1)
    | None => Returned (None, consumed)
    end
  else Returned (None, consumed).

Definition _parse_note (tokens : list string) : outcome (option ParsedNote * nat) :=
  if is_nil tokens then Returned (None, 0) else
  pitch <- index tokens 0 ;;
  if negb (_is_pitch pitch) then Returned (None, 0) else
  let consumed := 1 in
  let '(tied, pitch) :=
    if PyStr.endswith_char pitch "-" then (true, PyStr.drop_last pitch)
    else (false, pitch) in
  '(duration, dotted, consumed) <- look_for_duration tokens consumed ;;
  '(lyric, consumed) <- look_for_lyric tokens consumed ;;
  Returned (Some (mkParsedNote (PyStr.upper pitch) duration dotted lyric tied false),
            consumed).

(** Lines 383-386: tokens are joined to the chord token up to and
    including the first that ends with a closing bracket. *)
Fixpoint absorb (chord_token : string) (following : list string) : string :=
  match following with
  | [] => chord_token
  | t :: following' =>
      let chord_token := (chord_token ++ " " ++ t)%string in
      if PyStr.endswith_char t "]" then chord_token else absorb chord_token following'
  end.

Definition _parse_chord (tokens : list string) : outcome (option ParsedChord * nat) :=
  if is_nil tokens then Returned (None, 0) else
  first <- index tokens 0 ;;
  if negb (PyStr.startswith first "[") then Returned (None, 0) else
  let chord_token :=
    if PyStr.endswith_char first "]" then first else absorb first (skipn 1 tokens) in
  let content := PyStr.strip (PyStr.slice_1_m1 chord_token) in
  let pitch_strings := PyStr.split_ws content in
  let notes :=
    map (fun p => ParsedNote_of_pitch (PyStr.upper p)) (filter _is_pitch pitch_strings) in
  if is_nil notes then Returned (None, 0) else
  let consumed := 1 in
  '(duration, dotted, consumed) <- look_for_duration tokens consumed ;;
  '(lyric, consumed) <- look_for_lyric tokens consumed ;;
  Returned (Some (mkParsedChord notes duration dotted lyric), consumed).

(** The [while i < len(tokens)] loop of [_parse_line]; [fuel] bounds the
    number of iterations. *)
Fixpoint token_loop (fuel : nat) (tokens : list string) (i : nat)
  (elements : list ParsedElement) : outcome (list ParsedElement) :=
  if negb (i <? List.length tokens)%nat then Returned elements else
  match fuel with
  | O => Diverged
  | S fuel' =>
      token <- index tokens i ;;
      if String.eqb (PyStr.lower token) "r" then
        next <- (if (i + 1 <? List.length tokens)%nat then index tokens (i + 1) else Returned "q") ;;
        match _parse_duration_token next with
        | (Some duration, dotted) =>
            token_loop fuel' tokens (i + 2) (elements ++ [Rest (mkParsedRest duration dotted)])
        | (None, _) =>
            token_loop fuel' tokens (i + 1) (elements ++ [Rest (mkParsedRest QUARTER false)])
        end
      else
        chord <- (if PyStr.startswith token "[" then _parse_chord (skipn i tokens)
                  else Returned (None, 0)) ;;
        match chord with
        | (Some chord, consumed) =>
            token_loop fuel' tokens (i + consumed) (elements ++ [Chord chord])
        | (None, _) =>
            match dict_get BARLINE_PATTERNS token with
            | Some style =>
                token_loop fuel' tokens (i + 1) (elements ++ [Barline (mkParsedBarline style)])
            | None =>
                note <- (if _is_pitch token then _parse_note (skipn i tokens)
                         else Returned (None, 0)) ;;
                match note with
                | (Some note, consumed) =>
                    token_loop fuel' tokens (i + consumed) (elements ++ [Note note])
                | (None, _) => token_loop fuel' tokens (i + 1) elements
                end
            end
        end
  end.

Definition _parse_line (line : string) (line_num : nat) : outcome (list ParsedElement) :=
  match Re.COMMAND_PATTERN line with
  | Some (g1, g2) => Returned [Command (mkParsedCommand (PyStr.lower g1) (PyStr.strip g2))]
  | None =>
      match dict_get BARLINE_PATTERNS line with
      | Some style => Returned [Barline (mkParsedBarline style)]
      | None =>
          let tokens := _tokenize line in
          token_loop (List.length tokens) tokens 0 []
      end
  end.

(** ** [CommandParser.parse] and [CommandParser.validate] *)

Record CommandParser : Type := mkCommandParser { errors : list exn }.

(** The [for line_num, line in enumerate(lines, 1)] loop of [parse]: only
    [CommandParseError] is caught; it is given the line number and kept. *)
Fixpoint parse_lines (lines : list string) (line_num : nat)
  (elements : list ParsedElement) (errors : list exn)
  : outcome (list ParsedElement) * list exn :=
  match lines with
  | [] => (Returned elements, errors)
  | line :: lines' =>
      let line := PyStr.strip line in
      if PyStr.is_empty line || PyStr.startswith line "#" then
        parse_lines lines' (S line_num) elements errors
      else
        match _parse_line line line_num with
        | Returned line_elements =>
            parse_lines lines' (S line_num) (elements ++ line_elements) errors
        | Raised (CommandParseError message position _) =>
            parse_lines lines' (S line_num) elements
              (errors ++ [CommandParseError message position line_num])
        | Raised e => (Raised e, errors)
        | Diverged => (Diverged, errors)
        end
  end.

Definition parse (text : string) (self : CommandParser)
  : outcome (list ParsedElement) * CommandParser :=
  let lines := PyStr.split_char Re.newline (PyStr.strip text) in
  let '(result, errors) := parse_lines lines 1 [] [] in
  (result, mkCommandParser errors).

Definition validate (text : string) (self : CommandParser)
  : outcome (list exn) * CommandParser :=
  let '(result, self) := parse text self in
  (_ <- result ;; Returned (errors self), self).

Definition new_parser : CommandParser := mkCommandParser [].

Definition quoted (s : string) : string :=
  (String Re.dquote s ++ String Re.dquote EmptyString)%string.

(** ** music21 objects, as far as the builder reads and writes them *)

Definition qadd (a b : Q) : Q := Qred (a + b).
Definition qmul (a b : Q) : Q := Qred (a * b).
Definition qdiv (a b : Q) : Q := Qred (a / b).

(** The mark of a tie on a note; [n.tie] is [None] on a new note. *)
Inductive TieType : Type := start | stop.

Record M21Note : Type := mkM21Note {
  note_pitch : string;
  note_quarterLength : Q;
  note_lyric : option string;
  note_tie : option TieType
}.

Record M21Rest : Type := mkM21Rest { rest_quarterLength : Q }.

Record M21Chord : Type := mkM21Chord {
  chord_pitches : list string;
  chord_quarterLength : Q;
  m21_chord_lyric : option string
}.

Inductive ClefClass : Type :=
| TrebleClef | BassClef | AltoClef | TenorClef | SopranoClef.

(** A [meter.TimeSignature]: [beatDuration] is [None] when the property
    raises (beats of unequal length). *)
Record TimeSignature : Type := mkTimeSignature {
  ratio : string;
  beatCount : Z;
  beatDuration : option Q
}.

Inductive M21Element : Type :=
| ENote (n : M21Note)
| ERest (r : M21Rest)
| EChord (c : M21Chord)
| EKey (tonic : string) (mode : option string)
| ETimeSignature (ts : TimeSignature)
| EMetronomeMark (number : N)
| EClef (c : ClefClass).

(** [e.duration.quarterLength]; a signature or a marking has none. *)
Definition quarterLength (e : M21Element) : Q :=
  match e with
  | ENote n => note_quarterLength n
  | ERest r => rest_quarterLength r
  | EChord c => chord_quarterLength c
  | _ => 0%Q
  end.

(** A [stream.Measure]: its elements with their offsets, in the order in
    which they were appended. *)
Record Measure : Type := mkMeasure {
  number : nat;
  elements : list (Q * M21Element);
  rightBarline : option string
}.

Definition qmax (a b : Q) : Q := if Qle_bool a b then b else a.

(** [if m21_elem:] a [chord.Chord] has a length, the number of its notes,
    and is false when that is 0; the other objects are true. *)
Definition truth (e : M21Element) : bool :=
  match e with
  | EChord c => negb (is_nil (chord_pitches c))
  | _ => true
  end.

(** [Stream.highestTime]: the latest end of an element, 0 when empty. *)
Definition highestTime (m : Measure) : Q :=
  fold_left (fun t oe => qmax t (qadd (fst oe) (quarterLength (snd oe)))) (elements m) 0%Q.

(** [Stream.append]: the element is put at the end of the stream. *)
Definition append (m : Measure) (e : M21Element) : Measure :=
  mkMeasure (number m) (elements m ++ [(highestTime m, e)]) (rightBarline m).

(** [Stream.notes]: the notes and chords of the stream; rests are left out. *)
Definition is_NotRest (e : M21Element) : bool :=
  match e with ENote _ | EChord _ => true | _ => false end.

Definition stream_notes (m : Measure) : list (Q * M21Element) :=
  filter (fun oe => is_NotRest (snd oe)) (elements m).

(** [Stream.getElementsByClass(clef.Clef)] *)
Definition is_Clef (e : M21Element) : bool :=
  match e with EClef _ => true | _ => false end.

Definition stream_clefs (m : Measure) : list (Q * M21Element) :=
  filter (fun oe => is_Clef (snd oe)) (elements m).

(** A [stream.Part] as the builder makes it: the clef appended first, then
    the measures. *)
Record Part : Type := mkPart {
  part_id : string;
  part_clef : ClefClass;
  measures : list Measure
}.

Definition part_append (p : Part) (m : Measure) : Part :=
  mkPart (part_id p) (part_clef p) (measures p ++ [m]).

(** [part[-1].rightBarline = bar.Barline(style)] after a measure was
    appended. The elements of a part are kept by offset, and at the same
    offset a measure comes before a clef. A measure is appended at the end
    of the measures before it: when these are all empty of time it is at
    offset 0, before the clef that was appended first, so that [part[-1]]
    is the clef; the attribute is then set on the clef, and no measure gets
    a barline. At a later offset [part[-1]] is the measure. *)
Definition at_offset_0 (before : list Measure) : bool :=
  forallb (fun m => Qeq_bool (highestTime m) 0) before.

Definition set_last_rightBarline (p : Part) (style : string) : Part :=
  match rev (measures p) with
  | [] => p
  | m :: before =>
      if at_offset_0 before then p
      else
        mkPart (part_id p) (part_clef p)
               (rev before ++ [mkMeasure (number m) (elements m) (Some style)])
  end.

Record Score : Type := mkScore {
  title : string;
  parts : list Part
}.

(** ** [CommandExecutor] ([command_executor.py]) *)

Record CommandExecutor : Type := mkCommandExecutor {
  _pending_tie : option M21Note
}.

(** [CommandExecutor()] *)
Definition new_executor : CommandExecutor := mkCommandExecutor None.

(** [DURATION_MAP] *)
Definition DURATION_MAP (d : Duration) : Q :=
  match d with
  | WHOLE => 4 | HALF => 2 | QUARTER => 1
  | EIGHTH => 1 # 2 | SIXTEENTH => 1 # 4 | THIRTYSECOND => 1 # 8
  end%Q.

(** Lines 226-228, 249-251 and 265-267. *)
Definition quarter_length (d : Duration) (dotted : bool) : Q :=
  if dotted then qmul (DURATION_MAP d) (3 # 2) else DURATION_MAP d.

(** [CLEF_MAP] *)
Definition CLEF_MAP (name : string) : option ClefClass :=
  if String.eqb name "treble" then Some TrebleClef
  else if String.eqb name "bass" then Some BassClef
  else if String.eqb name "alto" then Some AltoClef
  else if String.eqb name "tenor" then Some TenorClef
  else if String.eqb name "soprano" then Some SopranoClef
  else None.

Definition mem (s : string) (l : list string) : bool := existsb (String.eqb s) l.

(** The local variables of [create_score_from_elements]; [current_time_sig]
    is assigned and never read, and is left out. *)
Record builder : Type := mkBuilder {
  part : Part;
  current_measure : Measure;
  measure_offset : Q;
  beats_per_measure : Q
}.

Definition new_measure (n : nat) : Measure := mkMeasure n [] None.

Section Executor.

(** [pitch.Pitch(s)] returns (rather than raises). *)
Variable Pitch_accepts : string -> bool.
(** [key.Key(tonic, mode)] and [key.Key(value)] return. *)
Variable Key_accepts : string -> option string -> bool.
(** [meter.TimeSignature(value)], [None] when it raises. *)
Variable TimeSignature_of : string -> option TimeSignature.
(** What [n.lyric] reads after [n.lyric = s]: music21 cuts the text into
    its lines and takes a hyphen at either end of a line as the mark of a
    syllable, not as text. *)
Variable Lyric_of : string -> option string.

(** [if parsed.lyric: n.lyric = parsed.lyric]: an empty lyric is not set. *)
Definition set_lyric (l : option string) : option string :=
  match l with
  | Some s => if PyStr.is_empty s then None else Lyric_of s
  | None => None
  end.

(** Lines 236-241 name [expressions.Tie], which the module [expressions]
    of music21 does not have: the two branches of the tie raise
    [AttributeError] before they assign [n.tie] or [self._pending_tie]. *)
Definition _create_note (parsed : ParsedNote) (self : CommandExecutor)
  : outcome M21Note * CommandExecutor :=
  if negb (Pitch_accepts (pitch parsed)) then (Raised Music21Exception, self) else
  let n := mkM21Note (pitch parsed) (quarter_length (duration parsed) (dotted parsed))
                     (set_lyric (lyric parsed)) None in
  if tied parsed then (Raised AttributeError, self)
  else
    match _pending_tie self with
    | Some _ => (Raised AttributeError, self)
    | None => (Returned n, self)
    end.

Definition _create_rest (parsed : ParsedRest) : M21Rest :=
  mkM21Rest (quarter_length (rest_duration parsed) (rest_dotted parsed)).

Definition _create_chord (parsed : ParsedChord) : outcome M21Chord :=
  if forallb (fun n => Pitch_accepts (pitch n)) (notes parsed) then
    Returned (mkM21Chord (map pitch (notes parsed))
                (quarter_length (chord_duration parsed) (chord_dotted parsed))
                (set_lyric (chord_lyric parsed)))
  else Raised Music21Exception.

(** [_create_music_element] on a note, a rest or a chord; [None] on any
    other element. *)
Definition _create_music_element (elem : ParsedElement) (self : CommandExecutor)
  : outcome (option M21Element) * CommandExecutor :=
  match elem with
  | Note n =>
      let '(r, self) := _create_note n self in (x <- r ;; Returned (Some (ENote x)), self)
  | Rest r => (Returned (Some (ERest (_create_rest r))), self)
  | Chord c => (x <- _create_chord c ;; Returned (Some (EChord x)), self)
  | _ => (Returned None, self)
  end.

Definition _parse_key_signature (value : string) : option M21Element :=
  let value := PyStr.strip value in
  let parts := PyStr.split_ws value in
  let with_mode :=
    match parts with
    | tonic :: mode :: _ =>
        let mode := PyStr.lower mode in
        let tonic :=
          match PyStr.char_at tonic 0, PyStr.char_at tonic 1 with
          | Some t0, Some t1 =>
              if Ascii.eqb t1 "#" then String t0 "#"
              else if Ascii.eqb (PyStr.lower_char t1) "b" then String t0 "-"
              else if Ascii.eqb t1 "-" then String t0 "-"
              else tonic
          | _, _ => tonic
          end in
        let mode :=
          if mem mode ["major"; "maj"; "m"] then "major"
          else if mem mode ["minor"; "min"] then "minor"
          else mode in
        if Key_accepts tonic (Some mode) then Some (EKey tonic (Some mode)) else None
    | _ => None
    end in
  match with_mode with
  | Some k => Some k
  | None => if Key_accepts value None then Some (EKey value None) else None
  end.

Definition _parse_time_signature (value : string) : option M21Element :=
  option_map ETimeSignature (TimeSignature_of value).

(** Lines 351-359: the [ValueError] of [int] is caught, and the answer is
    then [None]. *)
Definition _parse_tempo (value : string) : option M21Element :=
  match Re.search_digits value with
  | Some group =>
      match int_of_digits group with
      | Returned bpm => Some (EMetronomeMark bpm)
      | _ => None
      end
  | None => None
  end.

Definition _parse_clef (value : string) : option M21Element :=
  option_map EClef (CLEF_MAP (PyStr.strip (PyStr.lower value))).

Definition _create_command_element (parsed : ParsedCommand) : option M21Element :=
  let cmd := PyStr.lower (command parsed) in
  let value := PyStr.strip (value parsed) in
  if String.eqb cmd "key" then _parse_key_signature value
  else if String.eqb cmd "time" then _parse_time_signature value
  else if String.eqb cmd "tempo" then _parse_tempo value
  else if String.eqb cmd "clef" then _parse_clef value
  else None.

(** Line 95: [beatCount * (4.0 / beatDuration.quarterLength)]. *)
Definition beats_of (ts : TimeSignature) : outcome Q :=
  match beatDuration ts with
  | None => Raised Music21Exception
  | Some d =>
      if Qeq_bool d 0 then Raised ZeroDivisionError
      else Returned (qmul (inject_Z (beatCount ts)) (qdiv 4 d))
  end.

(** Lines 118-120 and 100-102: the current measure goes to the part and a
    new one is begun. *)
Definition close_measure (st : builder) : builder :=
  mkBuilder (part_append (part st) (current_measure st))
            (new_measure (number (current_measure st) + 1))
            0%Q (beats_per_measure st).

(** The body of the [for elem in elements] loop (lines 89-123). *)
Definition build_step (elem : ParsedElement) (st : builder) (self : CommandExecutor)
  : outcome builder * CommandExecutor :=
  match elem with
  | Command c =>
      match _create_command_element c with
      | Some m21_elem =>
          if truth m21_elem then
            (beats <- match m21_elem with
                      | ETimeSignature ts => beats_of ts
                      | _ => Returned (beats_per_measure st)
                      end ;;
             Returned (mkBuilder (part st) (append (current_measure st) m21_elem)
                                 (measure_offset st) beats),
             self)
          else (Returned st, self)
      | None => (Returned st, self)
      end
  | Barline b =>
      let st := close_measure st in
      let p :=
        if String.eqb (style b) "double" then set_last_rightBarline (part st) "double"
        else if String.eqb (style b) "final" then set_last_rightBarline (part st) "final"
        else part st in
      (Returned (mkBuilder p (current_measure st) (measure_offset st) (beats_per_measure st)),
       self)
  | _ =>
      let '(r, self) := _create_music_element elem self in
      (created <- r ;;
       match created with
       | Some m21_elem =>
           if truth m21_elem then
             let elem_duration := quarterLength m21_elem in
             let st :=
               if Qle_bool (qadd (measure_offset st) elem_duration) (beats_per_measure st)
               then st else close_measure st in
             Returned (mkBuilder (part st) (append (current_measure st) m21_elem)
                                 (qadd (measure_offset st) elem_duration)
                                 (beats_per_measure st))
           else Returned st
       | None => Returned st
       end,
       self)
  end.

Fixpoint build_loop (elements : list ParsedElement) (st : builder) (self : CommandExecutor)
  : outcome builder * CommandExecutor :=
  match elements with
  | [] => (Returned st, self)
  | elem :: elements' =>
      match build_step elem st self with
      | (Returned st', self') => build_loop elements' st' self'
      | failed => failed
      end
  end.

(** Lines 75-85. *)
Definition initial_builder : builder :=
  mkBuilder (mkPart "Part 1" TrebleClef []) (new_measure 1) 0%Q 4%Q.

(** Lines 125-127. *)
Definition add_final_measure (st : builder) : Part :=
  if negb (is_nil (stream_notes (current_measure st)))
     || negb (is_nil (stream_clefs (current_measure st)))
  then part_append (part st) (current_measure st)
  else part st.

Definition create_score_from_elements
  (elements : list ParsedElement) (title : string) (self : CommandExecutor)
  : outcome Score * CommandExecutor :=
  let '(r, self) := build_loop elements initial_builder self in
  (st <- r ;; Returned (mkScore title [add_final_measure st]), self).

(** [execute_commands]: a new executor for each call. *)
Definition execute_commands (elements : list ParsedElement) (title : string)
  : outcome Score :=
  fst (create_score_from_elements elements title new_executor).

End Executor.

(** ** The properties of [ParsedNote] (lines 88-98) *)

(** The longest run of [#] and [b] at the start of the string. *)
Fixpoint accidentals_run (s : string) : string :=
  match s with
  | String c r => if Re.accidental c then String c (accidentals_run r) else EmptyString
  | EmptyString => EmptyString
  end.

(** [ParsedNote.pitch_name]: [re.match] of a letter A-G in either case
    followed by any number of [#] and [b]; the group, or the pitch itself
    when there is no match. *)
Definition pitch_name (self : ParsedNote) : string :=
  match pitch self with
  | String c r => if Re.pitch_letter c then String c (accidentals_run r) else pitch self
  | EmptyString => pitch self
  end.

(** A run of digits at the start of the string goes to its end, or to a
    newline that ends it. *)
Fixpoint digits_to_end (s : string) : bool :=
  match s with
  | String c r => PyStr.isdigit c && (Re.at_dollar r || digits_to_end r)
  | EmptyString => false
  end.

(** [re.search] of a run of digits that ends the string: the group of the
    first match. *)
Fixpoint search_digits_end (s : string) : option string :=
  match s with
  | EmptyString => None
  | String _ r =>
      if digits_to_end s then Some (Re.digits_run s) else search_digits_end r
  end.

(** [ParsedNote.octave]: the integer of the group, 4 when there is no
    match. *)
Definition octave (self : ParsedNote) : outcome N :=
  match search_digits_end (pitch self) with
  | Some group => int_of_digits group
  | None => Returned 4%N
  end.

(** * Vocabulary of the statements *)

(** ** The parser *)

(** What a token parser answers: nothing and 0, or an element and the
    number of tokens it took, at least 1. *)
Definition took {A : Type} (r : outcome (option A * nat)) : Prop :=
  r = Returned (None, 0) \/ exists a c, r = Returned (Some a, c) /\ 1 <= c.

(** The elements of one line; the number of the line plays no part. *)
Definition line_elements (line : string) : list ParsedElement :=
  match _parse_line line 0 with
  | Returned r => r
  | _ => []
  end.

(** The lines [parse] does not skip. *)
Definition kept_lines (lines : list string) : list string :=
  filter (fun line => negb (PyStr.is_empty line || PyStr.startswith line "#"))
         (map PyStr.strip lines).

Fixpoint no_bracket (s : string) : bool :=
  match s with
  | EmptyString => true
  | String c r => negb (Ascii.eqb c "[") && negb (Ascii.eqb c "]") && no_bracket r
  end.

(** The pitches [_parse_chord] finds in the content of a chord token. *)
Definition chord_notes (content : string) : list ParsedNote :=
  map (fun p => ParsedNote_of_pitch (PyStr.upper p))
      (filter _is_pitch (PyStr.split_ws content)).

(** The elements [parse] returns for a text. *)
Definition parsed_elements (text : string) : list ParsedElement :=
  match fst (parse text new_parser) with
  | Returned r => r
  | _ => []
  end.

(** The line is one that [parse] skips: blank, or a comment. *)
Definition skipped_line (line : string) : bool :=
  PyStr.is_empty (PyStr.strip line) || PyStr.startswith (PyStr.strip line) "#".

(** No character of the string is white space. *)
Fixpoint no_space (s : string) : bool :=
  match s with
  | EmptyString => true
  | String c r => negb (PyStr.isspace c) && no_space r
  end.

(** Some character of the string is not white space. *)
Fixpoint has_nonspace (s : string) : bool :=
  match s with
  | EmptyString => false
  | String c r => negb (PyStr.isspace c) || has_nonspace r
  end.

(** The line has no quote and no bracket. *)
Fixpoint plain (s : string) : bool :=
  match s with
  | EmptyString => true
  | String c r =>
      negb (Ascii.eqb c Re.dquote) && negb (Ascii.eqb c "[") && negb (Ascii.eqb c "]")
      && plain r
  end.

(** A token as the tokenizer gives them: not empty, no white space at
    either end. *)
Definition trimmed (token : string) : Prop :=
  token <> "" /\ PyStr.strip token = token.

(** The token of a duration: its code, and a dot when dotted. *)
Definition duration_token (d : Duration) (dotted : bool) : string :=
  (Duration_value d ++ (if dotted then "." else ""))%string.

(** No character of the string is a quote. *)
Fixpoint no_quote (s : string) : bool :=
  match s with
  | EmptyString => true
  | String c r => negb (Ascii.eqb c Re.dquote) && no_quote r
  end.

(** The token after a pitch is neither a duration nor a lyric, or there is
    no token after it. *)
Definition no_lookahead (following : list string) : Prop :=
  match following with
  | [] => True
  | t :: _ => Re.DURATION_PATTERN t = None /\ Re.LYRIC_PATTERN t = None
  end.

(** Every character of the string is white space. *)
Fixpoint all_space (s : string) : bool :=
  match s with
  | EmptyString => true
  | String c r => PyStr.isspace c && all_space r
  end.

(** No character of the string is a newline. *)
Fixpoint no_newline (s : string) : bool :=
  match s with
  | EmptyString => true
  | String c r => negb (Ascii.eqb c Re.newline) && no_newline r
  end.

(** The keywords of [COMMAND_PATTERN]. *)
Definition command_keywords : list string := ["key"; "time"; "tempo"; "clef"].

(** The shape of the elements the parser gives. *)
Definition well_formed (e : ParsedElement) : Prop :=
  match e with
  | Note n =>
      tied n = false /\ slurred n = false
      /\ exists p, _is_pitch p = true /\ pitch n = PyStr.upper p
  | Rest _ => True
  | Chord c =>
      notes c <> []
      /\ Forall (fun n => exists p, _is_pitch p = true
                                    /\ n = ParsedNote_of_pitch (PyStr.upper p))
           (notes c)
  | Barline b => In (style b) ["single"; "double"; "final"]
  | Command c =>
      PyStr.lower (command c) = command c /\ PyStr.strip (value c) = value c
  end.

(** No character of the string is a decimal digit. *)
Fixpoint no_digit (s : string) : bool :=
  match s with
  | EmptyString => true
  | String c r => negb (PyStr.isdigit c) && no_digit r
  end.

(** Every character of the string is a decimal digit. *)
Fixpoint all_digits (s : string) : bool :=
  match s with
  | EmptyString => true
  | String c r => PyStr.isdigit c && all_digits r
  end.

(** The string does not begin with a decimal digit. *)
Definition no_digit_first (s : string) : bool :=
  match s with
  | EmptyString => true
  | String c _ => negb (PyStr.isdigit c)
  end.

(** The words for the mode of a key, in lower case, and the mode each
    stands for. *)
Definition mode_words : list (string * string) :=
  [("major", "major"); ("maj", "major"); ("m", "major");
   ("minor", "minor"); ("min", "minor")].

(** The second character of a tonic that is read as an accidental, and the
    accidental it is read as. *)
Definition accidentals : list (ascii * ascii) :=
  [("#", "#"); ("b", "-"); ("B", "-"); ("-", "-")]%char.

(** The elements the loop of [_parse_line] gives for a list of tokens. *)
Definition tokens_elements (tokens : list string) : list ParsedElement :=
  match token_loop (List.length tokens) tokens 0 [] with
  | Returned r => r
  | _ => []
  end.

(** One iteration of the loop of [_parse_line] on the tokens that are
    left: the elements it adds and the number of tokens it passes. *)
Definition first_element (tokens : list string) : outcome (list ParsedElement * nat) :=
  match tokens with
  | [] => Returned ([], 0)
  | token :: following =>
      if String.eqb (PyStr.lower token) "r" then
        match _parse_duration_token (match following with next :: _ => next | [] => "q" end) with
        | (Some duration, dotted) => Returned ([Rest (mkParsedRest duration dotted)], 2)
        | (None, _) => Returned ([Rest (mkParsedRest QUARTER false)], 1)
        end
      else
        chord <- (if PyStr.startswith token "[" then _parse_chord tokens
                  else Returned (None, 0)) ;;
        match chord with
        | (Some chord, consumed) => Returned ([Chord chord], consumed)
        | (None, _) =>
            match dict_get BARLINE_PATTERNS token with
            | Some style => Returned ([Barline (mkParsedBarline style)], 1)
            | None =>
                note <- (if _is_pitch token then _parse_note tokens
                         else Returned (None, 0)) ;;
                match note with
                | (Some note, consumed) => Returned ([Note note], consumed)
                | (None, _) => Returned ([], 1)
                end
            end
        end
  end.

(** The first of the tokens, if there is one, is not a duration. *)
Definition no_duration (following : list string) : Prop :=
  match following with
  | [] => True
  | t :: _ => Re.DURATION_PATTERN t = None
  end.

(** The sharps that begin the string. *)
Fixpoint leading_sharps (s : string) : string :=
  match s with
  | String c r => if Ascii.eqb c "#" then String c (leading_sharps r) else EmptyString
  | EmptyString => EmptyString
  end.

(** ** The builder *)

(** For the examples: a few arguments that music21 accepts, with the beat
    count and beat length it gives the meters; any other argument is
    refused here. *)
Module Sample.

Definition Pitch_accepts (s : string) : bool :=
  mem s ["C4"; "D4"; "E4"; "F4"; "G4"; "A4"; "B4"; "C5"].

Definition Key_accepts (tonic : string) (mode : option string) : bool :=
  match mode with
  | Some mode => mem tonic ["C"; "G"; "D"] && mem mode ["major"; "minor"]
  | None => mem tonic ["C"; "G"; "D"]
  end.

Definition TimeSignature_of (value : string) : option TimeSignature :=
  if String.eqb value "4/4" then Some (mkTimeSignature value 4 (Some 1%Q))
  else if String.eqb value "3/4" then Some (mkTimeSignature value 3 (Some 1%Q))
  else if String.eqb value "2/2" then Some (mkTimeSignature value 2 (Some 2%Q))
  else None.

(** The text of a lyric of one line without a hyphen at either end is
    the lyric itself. *)
Definition Lyric_of (s : string) : option string := Some s.

Definition create_score_from_elements :=
  create_score_from_elements Pitch_accepts Key_accepts TimeSignature_of Lyric_of.

Definition quarter (p : string) : ParsedElement :=
  Note (mkParsedNote p QUARTER false None false false).

End Sample.

Definition is_music (e : ParsedElement) : bool :=
  match e with
  | Note _ | Rest _ | Chord _ => true
  | _ => false
  end.

(** The element is one that the builder places: a note, a rest, or a chord
    with at least one note. *)
Definition is_placed (e : ParsedElement) : bool :=
  match e with
  | Note _ | Rest _ => true
  | Chord c => negb (is_nil (notes c))
  | _ => false
  end.

(** The length of the event of a note, rest or chord element. *)
Definition elem_length (e : ParsedElement) : Q :=
  match e with
  | Note n => quarter_length (duration n) (dotted n)
  | Rest r => quarter_length (rest_duration r) (rest_dotted r)
  | Chord c => quarter_length (chord_duration c) (chord_dotted c)
  | _ => 0%Q
  end.

Definition is_event (e : M21Element) : bool :=
  match e with
  | ENote _ | ERest _ | EChord _ => true
  | _ => false
  end.

(** The note, rest and chord events of a measure, in order. *)
Definition events (m : Measure) : list M21Element :=
  filter is_event (map snd (elements m)).

Definition total (evs : list M21Element) : Q :=
  fold_right (fun e s => (quarterLength e + s)%Q) 0%Q evs.

(** The sum of the durations of the events of a measure. *)
Definition measure_duration (m : Measure) : Q := total (events m).

(** The notes of a measure, of a part and of a score, in order. *)
Definition element_notes (e : M21Element) : list M21Note :=
  match e with ENote n => [n] | _ => [] end.

Definition measure_notes (m : Measure) : list M21Note :=
  flat_map (fun oe => element_notes (snd oe)) (elements m).

Definition part_notes (p : Part) : list M21Note := flat_map measure_notes (measures p).

Definition score_notes (s : Score) : list M21Note := flat_map part_notes (parts s).

Definition is_time_command (e : ParsedElement) : bool :=
  match e with
  | Command c => String.eqb (PyStr.lower (command c)) "time"
  | _ => false
  end.

(** Lines 113-123: the event goes into the current measure if it fits,
    and else into a new one. *)
Definition place (st : builder) (m21_elem : M21Element) : builder :=
  let elem_duration := quarterLength m21_elem in
  let st :=
    if Qle_bool (qadd (measure_offset st) elem_duration) (beats_per_measure st)
    then st else close_measure st in
  mkBuilder (part st) (append (current_measure st) m21_elem)
            (qadd (measure_offset st) elem_duration) (beats_per_measure st).

(** The notes of the measures of the part followed by those of the
    current measure. *)
Definition builder_notes (st : builder) : list M21Note :=
  part_notes (part st) ++ measure_notes (current_measure st).

Definition is_some {A : Type} (o : option A) : bool :=
  match o with Some _ => true | None => false end.

Module Examples.

Definition tied_half : ParsedNote := mkParsedNote "C4" HALF false None true false.
Definition plain (p : string) : ParsedNote := mkParsedNote p QUARTER false None false false.

(** A quarter note, a change of meter, a dotted half rest. *)
Definition with_meter : list ParsedElement :=
  [Note (plain "C4"); Command (mkParsedCommand "time" "3/4");
   Rest (mkParsedRest HALF true)].

Definition with_meter_measure : Measure :=
  mkMeasure 1
    [(0%Q, ENote (mkM21Note "C4" 1 None None));
     (1%Q, ETimeSignature (mkTimeSignature "3/4" 3 (Some 1%Q)));
     (1%Q, ERest (mkM21Rest 3))]
    None.

Definition with_meter_score : Score :=
  mkScore "meter" [mkPart "Part 1" TrebleClef [with_meter_measure]].

(** Two quarter notes with a single barline between them. *)
Definition with_barline : list ParsedElement :=
  [Note (plain "C4"); Barline (mkParsedBarline "single"); Note (plain "D4")].

Definition with_barline_score : Score :=
  mkScore "bar"
    [mkPart "Part 1" TrebleClef
       [mkMeasure 1 [(0%Q, ENote (mkM21Note "C4" 1 None None))] None;
        mkMeasure 2 [(0%Q, ENote (mkM21Note "D4" 1 None None))] None]].



End Examples.

(** The sum of the lengths of the elements of a stream; a marking has the
    length 0. *)
Definition span (l : list (Q * M21Element)) : Q :=
  fold_right (fun oe s => (quarterLength (snd oe) + s)%Q) 0%Q l.

(** From the time [t] on, each element begins where the one before it
    ends. *)
Fixpoint onsets_from (t : Q) (l : list (Q * M21Element)) : Prop :=
  match l with
  | [] => True
  | (o, e) :: l' => (o == t)%Q /\ onsets_from (t + quarterLength e)%Q l'
  end.

(** The note elements of a sequence, in order. *)
Definition note_elements (elems : list ParsedElement) : list ParsedNote :=
  flat_map (fun e => match e with Note n => [n] | _ => [] end) elems.

(** The measures of the part are numbered from 1, and the current measure
    has the next number. *)
Definition numbered (st : builder) : Prop :=
  map number (measures (part st)) = seq 1 (List.length (measures (part st)))
  /\ number (current_measure st) = S (List.length (measures (part st))).

(** The elements of the measure follow one another from 0 without a gap,
    and the end of the measure is the sum of their lengths. *)
Definition laid_out (m : Measure) : Prop :=
  onsets_from 0 (elements m) /\ (highestTime m == span (elements m))%Q.

(** The measures of the part and the current measure are laid out, and the
    offset the builder keeps is the end of the current measure. *)
Definition aligned (st : builder) : Prop :=
  Forall (onsets_from 0) (map elements (measures (part st)))
  /\ laid_out (current_measure st)
  /\ (measure_offset st == highestTime (current_measure st))%Q.





(** ** With music21 as a parameter *)

Section Facts.

Variable Pitch_accepts : string -> bool.
Variable Key_accepts : string -> option string -> bool.
Variable TimeSignature_of : string -> option TimeSignature.
Variable Lyric_of : string -> option string.

Let step := build_step Pitch_accepts Key_accepts TimeSignature_of Lyric_of.
Let loop := build_loop Pitch_accepts Key_accepts TimeSignature_of Lyric_of.
Let create := create_score_from_elements Pitch_accepts Key_accepts TimeSignature_of Lyric_of.

(** The note [_create_note] returns for a note element. *)
Definition made_note (n : ParsedNote) : M21Note :=
  mkM21Note (pitch n) (quarter_length (duration n) (dotted n))
            (set_lyric Lyric_of (lyric n)) None.

(** The value of [beats_per_measure] when the elements [before] have
    been processed: the capacity in force for the element that follows. *)
Definition capacity_in_force (before : list ParsedElement) (self : CommandExecutor) : Q :=
  match loop before initial_builder self with
  | (Returned st, _) => beats_per_measure st
  | _ => 4%Q
  end.

(** No single event is longer than the capacity in force when it is placed. *)
Definition events_fit (elems : list ParsedElement) (self : CommandExecutor) : Prop :=
  forall before e after,
    elems = before ++ e :: after -> is_music e = true ->
    (elem_length e <= capacity_in_force before self)%Q.

(** The events [evs] of a measure are none, or they are those of the
    current measure right after some element [e] was placed, and their
    sum is within the capacity that was in force for [e]. *)
Definition within_capacity (elems : list ParsedElement) (self : CommandExecutor)
  (evs : list M21Element) : Prop :=
  evs = []
  \/ exists before e after st self1,
      elems = before ++ e :: after
      /\ is_music e = true
      /\ loop (before ++ [e]) initial_builder self = (Returned st, self1)
      /\ evs = events (current_measure st)
      /\ (total evs <= capacity_in_force before self)%Q.

Record packed (elems : list ParsedElement) (self : CommandExecutor) (st : builder)
  : Prop := mkPacked {
  packed_part : Forall (within_capacity elems self) (map events (measures (part st)));
  packed_current : within_capacity elems self (events (current_measure st));
  packed_offset : (measure_offset st == total (events (current_measure st)))%Q
}.

(** The element leaves no trace in the build: a command that is not
    understood, or a chord without notes. *)
Definition no_effect (e : ParsedElement) : bool :=
  match e with
  | Command c =>
      match _create_command_element Key_accepts TimeSignature_of c with
      | Some _ => false
      | None => true
      end
  | Chord c => is_nil (notes c)
  | _ => false
  end.

(** Nothing raises at the element: music21 takes the pitch of a note, the
    pitches of a chord and gives the beat of a time signature a length that
    is not 0; and a note is not tied and meets no pending tie in the
    executor. *)
Definition acceptable (self : CommandExecutor) (e : ParsedElement) : bool :=
  match e with
  | Note n =>
      Pitch_accepts (pitch n) && negb (tied n) && negb (is_some (_pending_tie self))
  | Chord c => forallb (fun n => Pitch_accepts (pitch n)) (notes c)
  | Command c =>
      match _create_command_element Key_accepts TimeSignature_of c with
      | Some (ETimeSignature ts) =>
          match beatDuration ts with
          | Some d => negb (Qeq_bool d 0)
          | None => false
          end
      | _ => true
      end
  | _ => true
  end.

(** The key of a tonic and a mode when music21 takes them, and else the
    key of the whole value when music21 takes it. *)
Definition key_or_direct (tonic mode value : string) : option M21Element :=
  if Key_accepts tonic (Some mode) then Some (EKey tonic (Some mode))
  else if Key_accepts value None then Some (EKey value None)
  else None.

(** * The model on the examples of the documentation *)

Example strip_ex : PyStr.strip "  a b  " = "a b".
Proof. reflexivity. Qed.

Example split_ex : PyStr.split_ws " C4  E " = ["C4"; "E"].
Proof. reflexivity. Qed.

Example parse_note_ex :
  fst (parse "C4 q" new_parser)
  = Returned [Note (mkParsedNote "C4" QUARTER false None false false)].
Proof. reflexivity. Qed.

Example parse_note_lyric_ex :
  fst (parse ("D#5 h. " ++ quoted "Al-") new_parser)
  = Returned [Note (mkParsedNote "D#5" HALF true (Some "Al-") false false)].
Proof. reflexivity. Qed.

Example parse_chord_ex :
  fst (parse ("[C4 E4 G4] q " ++ quoted "lu") new_parser)
  = Returned [Chord (mkParsedChord
                [ParsedNote_of_pitch "C4"; ParsedNote_of_pitch "E4"; ParsedNote_of_pitch "G4"]
                QUARTER false (Some "lu"))].
Proof. reflexivity. Qed.

Example parse_rest_ex :
  fst (parse "r" new_parser) = Returned [Rest (mkParsedRest QUARTER false)]
  /\ fst (parse "r h." new_parser) = Returned [Rest (mkParsedRest HALF true)].
Proof. split; reflexivity. Qed.

Example parse_command_ex :
  fst (parse "KEY: g MAJOR" new_parser)
  = Returned [Command (mkParsedCommand "key" "g MAJOR")].
Proof. reflexivity. Qed.

Example parse_flat_ex :
  fst (parse "Bb3 q" new_parser)
  = Returned [Note (mkParsedNote "BB3" QUARTER false None false false)].
Proof. reflexivity. Qed.

(** * Properties of the parser *)

Lemma index_lt {A : Type} (l : list A) (i : nat) :
  i < List.length l -> exists a, index l i = Returned a.
Proof.
  intros H. unfold index.
  destruct (nth_error l i) eqn:E; [eauto|].
  apply nth_error_None in E. lia.
Qed.

Lemma look_for_duration_returns (tokens : list string) (consumed : nat) :
  exists d dot c,
    look_for_duration tokens consumed = Returned (d, dot, c) /\ consumed <= c.
Proof.
  unfold look_for_duration.
  destruct (consumed <? List.length tokens)%nat eqn:E.
  - apply Nat.ltb_lt in E. destruct (index_lt tokens consumed E) as [t ->]. simpl.
    destruct (_parse_duration_token t) as [[d|] dot]; eexists _, _, _; split;
      try reflexivity; lia.
  - eexists _, _, _; split; [reflexivity | lia].
Qed.

Lemma look_for_lyric_returns (tokens : list string) (consumed : nat) :
  exists l c, look_for_lyric tokens consumed = Returned (l, c) /\ consumed <= c.
Proof.
  unfold look_for_lyric.
  destruct (consumed <? List.length tokens)%nat eqn:E.
  - apply Nat.ltb_lt in E. destruct (index_lt tokens consumed E) as [t ->]. simpl.
    destruct (Re.LYRIC_PATTERN t); eexists _, _; split; try reflexivity; lia.
  - eexists _, _; split; [reflexivity | lia].
Qed.

Lemma _parse_note_took (tokens : list string) : took (_parse_note tokens).
Proof.
  unfold took, _parse_note.
  destruct tokens as [|t ts]; [left; reflexivity|].
  cbn [is_nil index nth_error bind].
  destruct (_is_pitch t); cbn [negb]; [|left; reflexivity].
  destruct (PyStr.endswith_char t "-");
    destruct (look_for_duration_returns (t :: ts) 1) as (d & dot & c & -> & Hc);
    cbn [bind];
    destruct (look_for_lyric_returns (t :: ts) c) as (l & c' & -> & Hc');
    cbn [bind]; right; eexists _, _; split; try reflexivity; lia.
Qed.

Lemma _parse_chord_took (tokens : list string) : took (_parse_chord tokens).
Proof.
  unfold took, _parse_chord.
  destruct tokens as [|t ts]; [left; reflexivity|].
  cbn [is_nil index nth_error bind].
  destruct (PyStr.startswith t "["); cbn [negb]; [|left; reflexivity].
  match goal with |- context [is_nil ?ns] => destruct ns as [|n0 ns'] end;
    [left; reflexivity|].
  cbn [is_nil].
  destruct (look_for_duration_returns (t :: ts) 1) as (d & dot & c & -> & Hc).
  cbn [bind].
  destruct (look_for_lyric_returns (t :: ts) c) as (l & c' & -> & Hc').
  cbn [bind]. right. eexists _, _; split; try reflexivity; lia.
Qed.

(** The loop of [_parse_line] ends within [len(tokens) - i] iterations,
    and it ends by returning. *)
Lemma token_loop_returns (fuel : nat) :
  forall (tokens : list string) (i : nat) (elements : list ParsedElement),
    List.length tokens - i <= fuel ->
    exists r, token_loop fuel tokens i elements = Returned r.
Proof.
  induction fuel as [|fuel IH]; intros tokens i elements Hfuel.
  - cbn [token_loop].
    destruct (i <? List.length tokens)%nat eqn:E; cbn [negb]; [|eauto].
    apply Nat.ltb_lt in E. lia.
  - cbn [token_loop].
    destruct (i <? List.length tokens)%nat eqn:E; cbn [negb]; [|eauto].
    apply Nat.ltb_lt in E.
    destruct (index_lt tokens i E) as [token ->]. cbn [bind].
    destruct (String.eqb (PyStr.lower token) "r").
    + destruct (i + 1 <? List.length tokens)%nat eqn:E1.
      * apply Nat.ltb_lt in E1. destruct (index_lt tokens (i + 1) E1) as [next ->].
        cbn [bind]. destruct (_parse_duration_token next) as [[d|] dot];
          apply IH; lia.
      * cbn [bind]. destruct (_parse_duration_token "q") as [[d|] dot];
          apply IH; lia.
    + assert (Hchord : took (if PyStr.startswith token "["
                             then _parse_chord (skipn i tokens)
                             else Returned (None, 0))).
      { destruct (PyStr.startswith token "[");
          [apply _parse_chord_took | left; reflexivity]. }
      destruct Hchord as [-> | (chord & c & -> & Hc)]; cbn [bind];
        [|apply IH; lia].
      destruct (dict_get BARLINE_PATTERNS token); [apply IH; lia|].
      assert (Hnote : took (if _is_pitch token
                            then _parse_note (skipn i tokens)
                            else Returned (None, 0))).
      { destruct (_is_pitch token);
          [apply _parse_note_took | left; reflexivity]. }
      destruct Hnote as [-> | (note & c & -> & Hc)]; cbn [bind];
        apply IH; lia.
Qed.

(** More iterations than needed change nothing. *)
Lemma token_loop_more_fuel (fuel : nat) :
  forall (fuel' : nat) (tokens : list string) (i : nat)
         (elements r : list ParsedElement),
    token_loop fuel tokens i elements = Returned r ->
    fuel <= fuel' ->
    token_loop fuel' tokens i elements = Returned r.
Proof.
  induction fuel as [|fuel IH]; intros fuel' tokens i elements r H Hle.
  - cbn [token_loop] in H. destruct fuel'; cbn [token_loop];
      destruct (i <? List.length tokens)%nat; cbn [negb] in *; congruence.
  - destruct fuel' as [|fuel']; [lia|]. cbn [token_loop] in *.
    destruct (i <? List.length tokens)%nat; cbn [negb] in *; [|assumption].
    destruct (index tokens i) as [token| |]; cbn [bind] in *; try discriminate.
    destruct (String.eqb (PyStr.lower token) "r").
    + destruct (if (i + 1 <? List.length tokens)%nat then index tokens (i + 1)
                else Returned "q") as [next| |]; cbn [bind] in *; try discriminate.
      destruct (_parse_duration_token next) as [[d|] dot];
        (eapply IH; [eassumption | lia]).
    + destruct (if PyStr.startswith token "[" then _parse_chord (skipn i tokens)
                else Returned (None, 0)) as [[[chord|] c]| |];
        cbn [bind] in *; try discriminate; [eapply IH; [eassumption | lia]|].
      destruct (dict_get BARLINE_PATTERNS token); [eapply IH; [eassumption | lia]|].
      destruct (if _is_pitch token then _parse_note (skipn i tokens)
                else Returned (None, 0)) as [[[note|] c']| |];
        cbn [bind] in *; try discriminate; (eapply IH; [eassumption | lia]).
Qed.

Lemma _parse_line_returns (line : string) (line_num : nat) :
  exists r, _parse_line line line_num = Returned r.
Proof.
  unfold _parse_line.
  destruct (Re.COMMAND_PATTERN line) as [[g1 g2]|]; [eauto|].
  destruct (dict_get BARLINE_PATTERNS line); [eauto|].
  apply token_loop_returns. lia.
Qed.

Lemma parse_lines_spec (lines : list string) :
  forall (line_num : nat) (elements : list ParsedElement) (errs : list exn),
    parse_lines lines line_num elements errs
    = (Returned (elements ++ flat_map line_elements (kept_lines lines)), errs).
Proof.
  induction lines as [|line lines IH]; intros line_num elements errs.
  - simpl. now rewrite app_nil_r.
  - unfold kept_lines in *. cbn [parse_lines map filter].
    destruct (PyStr.is_empty (PyStr.strip line) || PyStr.startswith (PyStr.strip line) "#");
      cbn [negb flat_map]; [apply IH|].
    unfold line_elements at 1.
    change (_parse_line (PyStr.strip line) 0) with (_parse_line (PyStr.strip line) line_num).
    destruct (_parse_line_returns (PyStr.strip line) line_num) as [r ->].
    rewrite IH, app_assoc. reflexivity.
Qed.

(** ** [parse] always returns; [validate] *)

(** C2. For every text, [parse] ends and returns, without raising: its
    result is the elements of all the lines it does not skip, in order, and
    the diagnostics it collected are the [errors] of the parser afterwards;
    [validate] returns exactly those diagnostics, each of them a
    [CommandParseError] record. *)
Theorem parse_returns_elements_and_diagnostics :
  forall (text : string) (self : CommandParser),
  exists (elements : list ParsedElement) (diagnostics : list exn),
    parse text self = (Returned elements, mkCommandParser diagnostics)
    /\ elements
       = flat_map line_elements
           (kept_lines (PyStr.split_char Re.newline (PyStr.strip text)))
    /\ validate text self = (Returned diagnostics, mkCommandParser diagnostics)
    /\ Forall (fun e => exists message position line,
                   e = CommandParseError message position line) diagnostics.
Proof.
  intros text self. unfold validate, parse.
  rewrite parse_lines_spec. cbn [app bind errors].
  eexists _, _. repeat split. constructor.
Qed.

(** C9. No line makes [_parse_line] raise: it returns for every line and
    every line number. So nothing is ever caught and recorded by [parse],
    and [validate] returns the empty list for every text. *)
Theorem validate_returns_no_diagnostic :
  forall (text : string) (self : CommandParser),
    (forall line line_num, exists r, _parse_line line line_num = Returned r)
    /\ validate text self = (Returned [], mkCommandParser []).
Proof.
  intros text self. split.
  - apply _parse_line_returns.
  - unfold validate, parse. rewrite parse_lines_spec. reflexivity.
Qed.

(** ** Tokens the line parser does not know *)

Lemma digit_is_not_hyphen (c : ascii) :
  PyStr.isdigit c = true -> Ascii.eqb c "-" = false.
Proof.
  destruct c as [[] [] [] [] [] [] [] []]; vm_compute; congruence.
Qed.

Lemma newline_is_not_hyphen (c : ascii) :
  Ascii.eqb c Re.newline = true -> Ascii.eqb c "-" = false.
Proof.
  intros H. apply Ascii.eqb_eq in H. subst. reflexivity.
Qed.

Lemma octave_end_not_tied (s : string) :
  Re.octave_end s = true -> PyStr.endswith_char s "-" = false.
Proof.
  destruct s as [|d [|n [|x r]]]; simpl; try discriminate;
    rewrite ?andb_true_iff; intros H.
  - apply digit_is_not_hyphen. tauto.
  - apply newline_is_not_hyphen. tauto.
  - destruct H as [_ H]. discriminate.
Qed.

Lemma endswith_char_skip (c : ascii) (r : string) (x : ascii) :
  Re.octave_end r = true ->
  PyStr.endswith_char (String c r) x = PyStr.endswith_char r x.
Proof. destruct r; [discriminate | reflexivity]. Qed.

(** A token that ends with a hyphen is not a pitch for [PITCH_PATTERN],
    so the branch of [_parse_note] that sets [tied] is never taken. *)
Lemma tie_suffix_is_not_pitch (token : string) :
  _is_pitch token = true -> PyStr.endswith_char token "-" = false.
Proof.
  unfold _is_pitch, Re.PITCH_PATTERN.
  destruct token as [|c r]; [discriminate|].
  rewrite andb_true_iff, orb_true_iff. intros [_ [H|H]].
  - rewrite (endswith_char_skip c r "-" H). now apply octave_end_not_tied.
  - destruct r as [|a r1]; [discriminate H|].
    rewrite andb_true_iff, orb_true_iff in H. destruct H as [_ [H|H]].
    + change (PyStr.endswith_char (String a r1) "-" = false).
      rewrite (endswith_char_skip a r1 "-" H). now apply octave_end_not_tied.
    + destruct r1 as [|a2 r2]; [discriminate H|].
      rewrite andb_true_iff in H. destruct H as [_ H].
      change (PyStr.endswith_char (String a2 r2) "-" = false).
      rewrite (endswith_char_skip a2 r2 "-" H). now apply octave_end_not_tied.
Qed.

Lemma parsed_note_is_never_tied (tokens : list string) (n : ParsedNote) (c : nat) :
  _parse_note tokens = Returned (Some n, c) -> tied n = false.
Proof.
  unfold _parse_note. destruct tokens as [|t ts]; [discriminate|].
  cbn [is_nil index nth_error bind].
  destruct (_is_pitch t) eqn:E; cbn [negb]; [|discriminate].
  rewrite (tie_suffix_is_not_pitch t E).
  destruct (look_for_duration_returns (t :: ts) 1) as (d & dot & c1 & -> & _).
  cbn [bind].
  destruct (look_for_lyric_returns (t :: ts) c1) as (l & c2 & -> & _).
  cbn [bind]. intros H. inversion H. reflexivity.
Qed.

(** C3. The token ["C4-"] is not a pitch for the line parser: [_is_pitch]
    refuses it, [_parse_note] gives nothing for it, and [parse] of
    ["C4- q"] has no element at all, where a tied quarter note C4 is
    expected. *)
Theorem tie_suffix_not_parsed :
  _is_pitch "C4-" = false
  /\ _parse_note ["C4-"; "q"] = Returned (None, 0)
  /\ parse "C4- q" new_parser = (Returned [], mkCommandParser []).
Proof. repeat split. Qed.

(** One iteration of the loop on a token that is ["r"] up to case. *)
Lemma token_loop_rest (fuel : nat) (tokens : list string) (i : nat)
  (elements : list ParsedElement) (token : string) :
  nth_error tokens i = Some token ->
  PyStr.lower token = "r" ->
  token_loop (S fuel) tokens i elements
  = match nth_error tokens (i + 1) with
    | Some next =>
        match _parse_duration_token next with
        | (Some duration, dotted) =>
            token_loop fuel tokens (i + 2)
              (elements ++ [Rest (mkParsedRest duration dotted)])
        | (None, _) =>
            token_loop fuel tokens (i + 1)
              (elements ++ [Rest (mkParsedRest QUARTER false)])
        end
    | None =>
        token_loop fuel tokens (i + 2)
          (elements ++ [Rest (mkParsedRest QUARTER false)])
    end.
Proof.
  intros Hi Hr. cbn [token_loop].
  assert (Hlt : i < List.length tokens) by (apply nth_error_Some; congruence).
  apply Nat.ltb_lt in Hlt. rewrite Hlt. cbn [negb].
  unfold index at 1. rewrite Hi. cbn [bind]. rewrite Hr. cbn [String.eqb Ascii.eqb].
  change (String.eqb "r" "r") with true. cbv iota.
  destruct (nth_error tokens (i + 1)) as [next|] eqn:E.
  - assert (H1 : i + 1 < List.length tokens) by (apply nth_error_Some; congruence).
    apply Nat.ltb_lt in H1. rewrite H1. unfold index. rewrite E. reflexivity.
  - apply nth_error_None in E.
    assert (H1 : (i + 1 <? List.length tokens)%nat = false) by (apply Nat.ltb_ge; exact E).
    rewrite H1. reflexivity.
Qed.

(** C6. The word ["rest"] is not a rest for the line parser: it is passed
    over as an unknown token, and so is the duration after it; only ["r"],
    in either case, gives a [Rest]. *)
Theorem rest_word_not_parsed :
  parse "rest" new_parser = (Returned [], mkCommandParser [])
  /\ parse "rest h" new_parser = (Returned [], mkCommandParser [])
  /\ parse "r h" new_parser
     = (Returned [Rest (mkParsedRest HALF false)], mkCommandParser [])
  /\ parse "R" new_parser
     = (Returned [Rest (mkParsedRest QUARTER false)], mkCommandParser []).
Proof. repeat split. Qed.

(** ** A chord bracket that is never closed *)

Lemma tokenize_chars_app (a b : string) :
  forall st, tokenize_chars st (a ++ b) = tokenize_chars (tokenize_chars st a) b.
Proof. induction a as [|c a IH]; intros st; simpl; [reflexivity | apply IH]. Qed.

Lemma push_append (s : string) (c : ascii) (r : string) :
  (push s c ++ r = s ++ String c r)%string.
Proof. unfold push. induction s as [|x s IH]; simpl; [reflexivity | now rewrite IH]. Qed.

Lemma append_empty_r (s : string) : (s ++ "" = s)%string.
Proof. induction s as [|x s IH]; simpl; [reflexivity | now rewrite IH]. Qed.

(** Inside a bracket, and up to the next bracket, every character joins
    the current token. *)
Lemma tokenize_inside_bracket (rest : string) :
  forall st,
    in_brackets st = true ->
    no_bracket rest = true ->
    tokens (tokenize_chars st rest) = tokens st
    /\ current (tokenize_chars st rest) = (current st ++ rest)%string
    /\ in_brackets (tokenize_chars st rest) = true.
Proof.
  induction rest as [|c rest IH]; intros st Hin Hno.
  - simpl. now rewrite append_empty_r.
  - simpl in Hno. rewrite !andb_true_iff, !negb_true_iff in Hno.
    destruct Hno as [[Ho Hc] Hno].
    cbn [tokenize_chars]. unfold tokenize_char. rewrite Ho, Hc, Hin.
    rewrite andb_false_r.
    destruct (Ascii.eqb c Re.dquote);
      match goal with
      | |- context [tokenize_chars ?s rest] => destruct (IH s eq_refl Hno) as (Ht & Hcur & Hb)
      end;
      rewrite Ht, Hcur, Hb; cbn [tokens current]; rewrite push_append; auto.
Qed.

Lemma no_bracket_rstrip (s : string) :
  no_bracket s = true -> no_bracket (PyStr.rstrip s) = true.
Proof.
  induction s as [|c s IH]; [reflexivity|].
  simpl. rewrite !andb_true_iff. intros [Hc Hs].
  destruct (PyStr.isspace c && PyStr.is_empty (PyStr.rstrip s)); [reflexivity|].
  simpl. rewrite !andb_true_iff. auto.
Qed.

Lemma no_bracket_endswith (s : string) :
  no_bracket s = true -> PyStr.endswith_char s "]" = false.
Proof.
  induction s as [|c s IH]; [reflexivity|].
  simpl. rewrite !andb_true_iff, !negb_true_iff. intros [[_ Hc] Hs].
  destruct s; [exact Hc | now apply IH].
Qed.

Lemma _parse_chord_unclosed (body : string) :
  PyStr.endswith_char (String "[" body) "]" = false ->
  _parse_chord [String "[" body]
  = if is_nil (chord_notes (PyStr.strip (PyStr.drop_last body)))
    then Returned (None, 0)
    else Returned (Some (mkParsedChord (chord_notes (PyStr.strip (PyStr.drop_last body)))
                           QUARTER false None), 1).
Proof.
  intros H. unfold _parse_chord.
  cbn [is_nil index nth_error bind skipn absorb].
  rewrite H.
  change (PyStr.startswith (String "[" body) "[") with true. cbn [negb].
  change (PyStr.slice_1_m1 (String "[" body)) with (PyStr.drop_last body).
  fold (chord_notes (PyStr.strip (PyStr.drop_last body))).
  destruct (chord_notes (PyStr.strip (PyStr.drop_last body))); reflexivity.
Qed.

(** C10. When a line opens a chord bracket and no bracket follows, the
    tokenizer keeps the bracket and the whole rest of the line as one token,
    the last one; [_parse_chord] takes the first and the last character off
    that token as if they were the brackets, and reads the pitches in what
    is left, so the last character of the line is lost. For ["[C4 E4"] the
    result is one chord with the single note C4. *)
Theorem unclosed_chord_loses_last_character :
  forall (before rest : string),
    no_bracket rest = true ->
    let token := PyStr.strip (String "[" rest) in
    _tokenize (before ++ String "[" rest) = _tokenize before ++ [token]
    /\ _parse_chord [token]
       = (let notes := chord_notes (PyStr.strip (PyStr.slice_1_m1 token)) in
          if is_nil notes then Returned (None, 0)
          else Returned (Some (mkParsedChord notes QUARTER false None), 1))
    /\ _tokenize "[C4 E4" = ["[C4 E4"]
    /\ parse "[C4 E4" new_parser
       = (Returned [Chord (mkParsedChord [ParsedNote_of_pitch "C4"] QUARTER false None)],
          mkCommandParser []).
Proof.
  intros before rest Hno token.
  assert (Htok : token = String "[" (PyStr.rstrip rest)) by reflexivity.
  split; [|split; [|split; reflexivity]].
  - unfold _tokenize. rewrite tokenize_chars_app.
    set (st := tokenize_chars (mkTokenizer [] "" false false) before).
    cbn [tokenize_chars].
    change (tokenize_char st "[")
      with (mkTokenizer (flush (tokens st) (current st)) "[" (in_quotes st) true).
    destruct (tokenize_inside_bracket rest
                (mkTokenizer (flush (tokens st) (current st)) "[" (in_quotes st) true)
                eq_refl Hno) as (Ht & Hc & _).
    rewrite Ht, Hc. cbn [tokens current].
    change ("[" ++ rest)%string with (String "[" rest).
    unfold flush at 1. fold token. rewrite Htok. reflexivity.
  - rewrite Htok. apply _parse_chord_unclosed.
    pose proof (no_bracket_endswith _ (no_bracket_rstrip _ Hno)) as He.
    destruct (PyStr.rstrip rest); [reflexivity | exact He].
Qed.

Lemma unclosed_chord_witness :
  no_bracket "C4 E4" = true
  /\ _tokenize ("r q " ++ String "[" "C4 E4") = _tokenize "r q " ++ ["[C4 E4"].
Proof.
  split; [reflexivity|].
  exact (proj1 (unclosed_chord_loses_last_character "r q " "C4 E4" eq_refl)).
Defined.

(** ** Lines are parsed one by one *)

Lemma strip_commutes (s : string) :
  PyStr.rstrip (PyStr.lstrip s) = PyStr.lstrip (PyStr.rstrip s).
Proof.
  induction s as [|c s IH]; [reflexivity|].
  cbn [PyStr.lstrip PyStr.rstrip].
  destruct (PyStr.isspace c) eqn:Ec; cbn [andb].
  - rewrite IH. destruct (PyStr.rstrip s) as [|x r] eqn:Er; cbn [PyStr.is_empty].
    + reflexivity.
    + cbn [PyStr.lstrip]. rewrite Ec. reflexivity.
  - cbn [PyStr.rstrip PyStr.lstrip]. rewrite Ec. reflexivity.
Qed.

Lemma strip_of_rstrip (x y : string) :
  PyStr.rstrip x = PyStr.rstrip y -> PyStr.strip x = PyStr.strip y.
Proof. intros H. unfold PyStr.strip. now rewrite !strip_commutes, H. Qed.

Lemma rstrip_cons (c : ascii) (x y : string) :
  PyStr.rstrip x = PyStr.rstrip y ->
  PyStr.rstrip (String c x) = PyStr.rstrip (String c y).
Proof. intros H. cbn [PyStr.rstrip]. now rewrite H. Qed.

Lemma split_char_not_nil (sep : ascii) (s : string) : PyStr.split_char sep s <> [].
Proof.
  induction s as [|c s IH]; cbn [PyStr.split_char]; [discriminate|].
  destruct (Ascii.eqb c sep); [discriminate|].
  destruct (PyStr.split_char sep s); discriminate.
Qed.

Lemma split_char_app (sep : ascii) (a b : string) :
  PyStr.split_char sep (a ++ String sep b)
  = PyStr.split_char sep a ++ PyStr.split_char sep b.
Proof.
  induction a as [|c a IH]; cbn [String.append PyStr.split_char].
  - now rewrite Ascii.eqb_refl.
  - destruct (Ascii.eqb c sep); rewrite IH; [reflexivity|].
    pose proof (split_char_not_nil sep a) as Hne.
    destruct (PyStr.split_char sep a); [congruence | reflexivity].
Qed.

Lemma kept_lines_cons (line : string) (lines : list string) :
  kept_lines (line :: lines)
  = (if skipped_line line then [] else [PyStr.strip line]) ++ kept_lines lines.
Proof.
  unfold kept_lines, skipped_line. cbn [map filter].
  destruct (PyStr.is_empty (PyStr.strip line) || PyStr.startswith (PyStr.strip line) "#");
    reflexivity.
Qed.

Lemma kept_lines_app (a b : list string) :
  kept_lines (a ++ b) = kept_lines a ++ kept_lines b.
Proof. unfold kept_lines. now rewrite map_app, filter_app. Qed.

Lemma kept_lines_same_head (x y : string) (xs ys : list string) :
  PyStr.strip x = PyStr.strip y -> kept_lines xs = kept_lines ys ->
  kept_lines (x :: xs) = kept_lines (y :: ys).
Proof.
  intros Hs Hk. rewrite !kept_lines_cons. unfold skipped_line. now rewrite Hs, Hk.
Qed.

Lemma kept_lines_lstrip (t : string) :
  kept_lines (PyStr.split_char Re.newline (PyStr.lstrip t))
  = kept_lines (PyStr.split_char Re.newline t).
Proof.
  induction t as [|c t IH]; [reflexivity|].
  cbn [PyStr.lstrip]. destruct (PyStr.isspace c) eqn:Ec; [|reflexivity].
  rewrite IH. cbn [PyStr.split_char].
  destruct (Ascii.eqb c Re.newline); [reflexivity|].
  pose proof (split_char_not_nil Re.newline t) as Hne.
  destruct (PyStr.split_char Re.newline t) as [|w ws]; [congruence|].
  apply kept_lines_same_head; [|reflexivity].
  unfold PyStr.strip. cbn [PyStr.lstrip]. now rewrite Ec.
Qed.

(** The lines of a text and of the text without its trailing white space:
    the first lines agree up to trailing white space, the others up to the
    lines that are skipped. *)
Lemma split_rstrip (t : string) :
  exists x xs y ys,
    PyStr.split_char Re.newline (PyStr.rstrip t) = x :: xs
    /\ PyStr.split_char Re.newline t = y :: ys
    /\ PyStr.rstrip x = PyStr.rstrip y
    /\ kept_lines xs = kept_lines ys.
Proof.
  induction t as [|c t (x & xs & y & ys & Hx & Hy & Hr & Hk)].
  - exists "", [], "", []. repeat split.
  - cbn [PyStr.rstrip PyStr.split_char]. rewrite Hy.
    destruct (PyStr.isspace c && PyStr.is_empty (PyStr.rstrip t)) eqn:E.
    + apply andb_true_iff in E. destruct E as [Ec Et].
      destruct (PyStr.rstrip t); [|discriminate].
      cbn in Hx. inversion Hx; subst x xs. clear Hx.
      assert (Hy0 : PyStr.rstrip y = "") by (now rewrite <- Hr).
      destruct (Ascii.eqb c Re.newline).
      * exists "", [], "", (y :: ys). repeat split.
        rewrite kept_lines_cons, <- Hk. unfold skipped_line.
        rewrite (strip_of_rstrip y "") by exact Hy0. reflexivity.
      * exists "", [], (String c y), ys. repeat split; [|exact Hk].
        cbn [PyStr.rstrip]. now rewrite Hy0, Ec.
    + cbn [PyStr.split_char]. rewrite Hx.
      destruct (Ascii.eqb c Re.newline).
      * exists "", (x :: xs), "", (y :: ys). repeat split.
        apply kept_lines_same_head; [now apply strip_of_rstrip | exact Hk].
      * exists (String c x), xs, (String c y), ys. repeat split; [|exact Hk].
        now apply rstrip_cons.
Qed.

Lemma kept_lines_rstrip (t : string) :
  kept_lines (PyStr.split_char Re.newline (PyStr.rstrip t))
  = kept_lines (PyStr.split_char Re.newline t).
Proof.
  destruct (split_rstrip t) as (x & xs & y & ys & -> & -> & Hr & Hk).
  apply kept_lines_same_head; [now apply strip_of_rstrip | exact Hk].
Qed.

Lemma kept_lines_strip (t : string) :
  kept_lines (PyStr.split_char Re.newline (PyStr.strip t))
  = kept_lines (PyStr.split_char Re.newline t).
Proof. unfold PyStr.strip. now rewrite kept_lines_rstrip, kept_lines_lstrip. Qed.

Lemma parse_elements (text : string) (self : CommandParser) :
  fst (parse text self)
  = Returned (flat_map line_elements (kept_lines (PyStr.split_char Re.newline text))).
Proof.
  unfold parse. rewrite parse_lines_spec, kept_lines_strip. reflexivity.
Qed.

Lemma parsed_elements_lines (text : string) :
  parsed_elements text
  = flat_map line_elements (kept_lines (PyStr.split_char Re.newline text)).
Proof. unfold parsed_elements. now rewrite parse_elements. Qed.

(** X1. The parse of two texts joined by a newline is the parse of the
    first followed by the parse of the second: nothing is carried from one
    line to the next, and the white space around a text does not count. *)
Theorem parse_of_joined_texts :
  forall (a b : string) (self : CommandParser),
    fst (parse (a ++ String Re.newline b) self)
    = Returned (parsed_elements a ++ parsed_elements b).
Proof.
  intros a b self.
  rewrite parse_elements, split_char_app, kept_lines_app, flat_map_app.
  now rewrite !parsed_elements_lines.
Qed.

(** X2. A text of which every line is blank or begins, after its leading
    white space, with [#] parses to no element. *)
Theorem parse_of_comments :
  forall (text : string) (self : CommandParser),
    forallb skipped_line (PyStr.split_char Re.newline text) = true ->
    fst (parse text self) = Returned [].
Proof.
  intros text self H. rewrite parse_elements.
  induction (PyStr.split_char Re.newline text) as [|line lines IH]; [reflexivity|].
  cbn [forallb] in H. apply andb_true_iff in H. destruct H as [Hl Hls].
  rewrite kept_lines_cons, Hl. apply IH. exact Hls.
Qed.

(** ** The tokenizer *)

Lemma lstrip_idempotent (s : string) : PyStr.lstrip (PyStr.lstrip s) = PyStr.lstrip s.
Proof.
  induction s as [|c s IH]; [reflexivity|].
  cbn [PyStr.lstrip]. destruct (PyStr.isspace c) eqn:Ec; [exact IH|].
  cbn [PyStr.lstrip]. now rewrite Ec.
Qed.

Lemma rstrip_idempotent (s : string) : PyStr.rstrip (PyStr.rstrip s) = PyStr.rstrip s.
Proof.
  induction s as [|c s IH]; [reflexivity|].
  cbn [PyStr.rstrip].
  destruct (PyStr.isspace c && PyStr.is_empty (PyStr.rstrip s)) eqn:E; [reflexivity|].
  cbn [PyStr.rstrip]. now rewrite IH, E.
Qed.

Lemma strip_idempotent (s : string) : PyStr.strip (PyStr.strip s) = PyStr.strip s.
Proof.
  unfold PyStr.strip.
  rewrite <- (strip_commutes (PyStr.lstrip s)), lstrip_idempotent.
  apply rstrip_idempotent.
Qed.

Lemma rstrip_has_nonspace (s : string) :
  has_nonspace s = true -> PyStr.is_empty (PyStr.rstrip s) = false.
Proof.
  induction s as [|c s IH]; [discriminate|].
  cbn [has_nonspace PyStr.rstrip]. intros H.
  destruct (PyStr.isspace c); cbn [negb orb andb] in *; [|reflexivity].
  now rewrite (IH H).
Qed.

Lemma lstrip_has_nonspace (s : string) :
  has_nonspace s = true -> has_nonspace (PyStr.lstrip s) = true.
Proof.
  induction s as [|c s IH]; [discriminate|].
  cbn [has_nonspace PyStr.lstrip]. intros H.
  destruct (PyStr.isspace c) eqn:Ec; cbn [negb orb] in *; [now apply IH|].
  cbn [has_nonspace]. now rewrite Ec.
Qed.

Lemma strip_has_nonspace (s : string) :
  has_nonspace s = true -> PyStr.is_empty (PyStr.strip s) = false.
Proof. intros H. apply rstrip_has_nonspace, lstrip_has_nonspace, H. Qed.

Lemma push_has_nonspace (s : string) (c : ascii) :
  PyStr.isspace c = false -> has_nonspace (push s c) = true.
Proof.
  intros Hc. unfold push. induction s as [|x s IH]; cbn [String.append has_nonspace].
  - now rewrite Hc.
  - rewrite IH. apply orb_true_r.
Qed.

Lemma is_empty_false (s : string) : PyStr.is_empty s = false -> s <> "".
Proof. destruct s; [discriminate | intros _; discriminate]. Qed.

Lemma flush_trimmed (tokens : list string) (current : string) :
  Forall trimmed tokens -> Forall trimmed (flush tokens current).
Proof.
  intros H. unfold flush.
  destruct (PyStr.is_empty (PyStr.strip current)) eqn:E; [exact H|].
  apply Forall_app. split; [exact H|]. constructor; [|constructor].
  split; [now apply is_empty_false | apply strip_idempotent].
Qed.

Lemma tokenize_chars_trimmed (line : string) :
  forall st, Forall trimmed (tokens st) -> Forall trimmed (tokens (tokenize_chars st line)).
Proof.
  induction line as [|c line IH]; intros st H; [exact H|].
  cbn [tokenize_chars]. apply IH. unfold tokenize_char.
  destruct (Ascii.eqb c Re.dquote); [exact H|].
  destruct (Ascii.eqb c "["); [now apply flush_trimmed|].
  destruct (Ascii.eqb c "]") eqn:Ec.
  - cbn [tokens]. apply Forall_app. split; [exact H|]. constructor; [|constructor].
    split; [|apply strip_idempotent].
    apply is_empty_false, strip_has_nonspace, push_has_nonspace.
    apply Ascii.eqb_eq in Ec. now subst.
  - destruct (PyStr.isspace c && negb (in_quotes st) && negb (in_brackets st));
      [now apply flush_trimmed | exact H].
Qed.

(** X3. No token of a line is empty, and no token begins or ends with
    white space. *)
Theorem tokens_are_trimmed :
  forall (line : string), Forall trimmed (_tokenize line).
Proof.
  intros line. unfold _tokenize. apply flush_trimmed, tokenize_chars_trimmed. constructor.
Qed.

Lemma strip_no_space (s : string) : no_space s = true -> PyStr.strip s = s.
Proof.
  intros H. unfold PyStr.strip.
  assert (Hl : PyStr.lstrip s = s).
  { destruct s as [|c s]; [reflexivity|]. cbn [no_space PyStr.lstrip] in *.
    destruct (PyStr.isspace c); [discriminate | reflexivity]. }
  rewrite Hl. induction s as [|c s IH]; [reflexivity|].
  cbn [no_space PyStr.rstrip] in *. apply andb_true_iff in H. destruct H as [Hc Hs].
  apply negb_true_iff in Hc. rewrite Hc. cbn [andb].
  rewrite IH; [reflexivity | exact Hs |].
  destruct s as [|x s]; [reflexivity|]. cbn [no_space PyStr.lstrip] in *.
  destruct (PyStr.isspace x); [discriminate | reflexivity].
Qed.

Lemma push_no_space (s : string) (c : ascii) :
  no_space s = true -> PyStr.isspace c = false -> no_space (push s c) = true.
Proof.
  intros Hs Hc. unfold push. induction s as [|x s IH]; cbn [String.append no_space] in *.
  - now rewrite Hc.
  - apply andb_true_iff in Hs. destruct Hs as [Hx Hs]. now rewrite Hx, IH.
Qed.

Lemma flush_no_space (tokens : list string) (current : string) :
  no_space current = true ->
  flush tokens current = tokens ++ (if PyStr.is_empty current then [] else [current]).
Proof.
  intros H. unfold flush. rewrite (strip_no_space current H).
  destruct (PyStr.is_empty current); [now rewrite app_nil_r | reflexivity].
Qed.

Lemma tokenize_chars_plain (line : string) :
  forall st,
    plain line = true ->
    in_quotes st = false -> in_brackets st = false -> no_space (current st) = true ->
    flush (tokens (tokenize_chars st line)) (current (tokenize_chars st line))
    = tokens st ++ PyStr.split_ws_aux (current st) line.
Proof.
  induction line as [|c line IH]; intros st Hp Hq Hb Hc.
  - cbn [tokenize_chars PyStr.split_ws_aux]. now apply flush_no_space.
  - cbn [plain] in Hp. rewrite !andb_true_iff, !negb_true_iff in Hp.
    destruct Hp as [[[Hd Ho] Hcl] Hp].
    cbn [tokenize_chars PyStr.split_ws_aux]. unfold tokenize_char.
    rewrite Hd, Ho, Hcl, Hq, Hb. cbn [negb]. rewrite !andb_true_r.
    destruct (PyStr.isspace c) eqn:Es.
    + rewrite IH by (cbn [in_quotes in_brackets current no_space]; auto).
      cbn [tokens current]. rewrite (flush_no_space _ _ Hc).
      destruct (PyStr.is_empty (current st)); [now rewrite app_nil_r|].
      now rewrite <- app_assoc.
    + rewrite IH; cbn [in_quotes in_brackets current tokens]; auto.
      now apply push_no_space.
Qed.

(** X4. On a line without a quote or a bracket the tokens are the words
    of the line, as [str.split] gives them. *)
Theorem tokenize_plain_line :
  forall (line : string), plain line = true -> _tokenize line = PyStr.split_ws line.
Proof.
  intros line H. unfold _tokenize, PyStr.split_ws.
  now rewrite tokenize_chars_plain.
Qed.

(** ** Duration tokens and note tokens *)

Lemma at_dollar_inv (s : string) :
  Re.at_dollar s = true -> s = "" \/ s = String Re.newline "".
Proof.
  destruct s as [|c [|x r]]; cbn; try discriminate; [now left|].
  intros H. apply Ascii.eqb_eq in H. subst. now right.
Qed.

Lemma DURATION_PATTERN_inv (t g1 g2 : string) :
  Re.DURATION_PATTERN t = Some (g1, g2) ->
  exists c tail,
    Re.duration_letter c = true /\ g1 = String c ""
    /\ (g2 = "" \/ g2 = ".") /\ (tail = "" \/ tail = String Re.newline "")
    /\ t = (g1 ++ g2 ++ tail)%string.
Proof.
  destruct t as [|c r]; [discriminate|]. cbn [Re.DURATION_PATTERN].
  destruct (Re.duration_letter c) eqn:Ec; [|discriminate].
  destruct r as [|c2 r'].
  - cbn. intros H. inversion H. exists c, "". auto 10.
  - destruct (Ascii.eqb c2 ".") eqn:E2.
    + apply Ascii.eqb_eq in E2. subst c2. cbv iota beta.
      destruct (Re.at_dollar r') eqn:Er; [|discriminate].
      intros H. inversion H. exists c, r'.
      apply at_dollar_inv in Er. auto 10.
    + assert (Hm : forall (A : Type) (x y : A),
                 match c2 with "."%char => x | _ => y end = y).
      { intros A x y. destruct c2 as [[] [] [] [] [] [] [] []];
          try reflexivity; discriminate E2. }
      rewrite Hm.
      destruct (Re.at_dollar (String c2 r')) eqn:Er; [|discriminate].
      intros H. inversion H. exists c, (String c2 r').
      apply at_dollar_inv in Er. auto 10.
Qed.

Lemma from_code_letter (c : ascii) :
  Re.duration_letter c = true ->
  exists d, from_code (String c "") = Some d
            /\ Duration_value d = String (PyStr.lower_char c) "".
Proof.
  unfold Re.duration_letter. cbn [existsb]. rewrite !orb_true_iff.
  unfold from_code. cbn [PyStr.lower PyStr.map_chars].
  intros [H|[H|[H|[H|[H|[H|H]]]]]]; try discriminate;
    apply Ascii.eqb_eq in H; rewrite H; eexists; split; reflexivity.
Qed.

Lemma duration_token_read (d : Duration) (dot : bool) :
  _parse_duration_token (duration_token d dot) = (Some d, dot).
Proof. destruct d, dot; reflexivity. Qed.

(** X5. The twelve duration tokens, in lower or in upper case, are read
    back as the duration and the dot they stand for. Conversely a token is
    read as a duration only if, in lower case, it is one of the twelve
    (a newline may end it). *)
Theorem duration_token_round_trip :
  (forall (d : Duration) (dot : bool),
      _parse_duration_token (duration_token d dot) = (Some d, dot)
      /\ _parse_duration_token (PyStr.upper (duration_token d dot)) = (Some d, dot))
  /\ (forall (t : string) (d : Duration) (dot : bool),
         _parse_duration_token t = (Some d, dot) ->
         PyStr.lower t = duration_token d dot
         \/ PyStr.lower t = (duration_token d dot ++ String Re.newline "")%string).
Proof.
  split.
  - intros d dot; split; [apply duration_token_read | destruct d, dot; reflexivity].
  - intros t d dot. unfold _parse_duration_token.
    destruct (Re.DURATION_PATTERN t) as [[g1 g2]|] eqn:E; [|discriminate].
    destruct (DURATION_PATTERN_inv t g1 g2 E) as (c & tail & Hc & -> & Hg & Ht & ->).
    destruct (from_code_letter c Hc) as (d' & -> & Hv).
    intros H. inversion H; subst d'. clear H.
    unfold duration_token. rewrite Hv.
    destruct Hg as [-> | ->]; destruct Ht as [-> | ->]; cbn; auto.
Qed.

Lemma until_quote_quoted (l rest : string) :
  no_quote l = true ->
  Re.until_quote (l ++ String Re.dquote rest) = Some l.
Proof.
  induction l as [|c l IH]; cbn [String.append Re.until_quote no_quote].
  - intros _. now rewrite Ascii.eqb_refl.
  - rewrite andb_true_iff, negb_true_iff. intros [Hc Hl].
    now rewrite Hc, (IH Hl).
Qed.

Lemma LYRIC_PATTERN_quoted (l : string) :
  no_quote l = true -> Re.LYRIC_PATTERN (quoted l) = Some l.
Proof.
  intros H. unfold quoted, Re.LYRIC_PATTERN. cbn [String.append].
  rewrite Ascii.eqb_refl. now apply until_quote_quoted.
Qed.

(** X6. A pitch token followed by a duration token and a quoted lyric is
    read as one note with the pitch in upper case, that duration and that
    lyric, and takes the three tokens; without the duration token the lyric
    is still read and the note is a quarter; followed by neither it is a
    plain quarter note and takes one token. The note is never tied. *)
Theorem note_tokens :
  forall (p : string) (following : list string),
    _is_pitch p = true ->
    (forall d dot l,
        no_quote l = true ->
        _parse_note (p :: duration_token d dot :: quoted l :: following)
        = Returned (Some (mkParsedNote (PyStr.upper p) d dot (Some l) false false), 3))
    /\ (forall d dot,
           no_lookahead following ->
           _parse_note (p :: duration_token d dot :: following)
           = Returned (Some (mkParsedNote (PyStr.upper p) d dot None false false), 2))
    /\ (forall l,
           no_quote l = true ->
           _parse_note (p :: quoted l :: following)
           = Returned (Some (mkParsedNote (PyStr.upper p) QUARTER false (Some l) false false), 2))
    /\ (no_lookahead following ->
        _parse_note (p :: following)
        = Returned (Some (mkParsedNote (PyStr.upper p) QUARTER false None false false), 1)).
Proof.
  intros p following Hp.
  pose proof (tie_suffix_is_not_pitch p Hp) as Htie.
  assert (Hql : forall l, no_quote l = true ->
                  _parse_duration_token (quoted l) = (None, false)).
  { intros l _. unfold _parse_duration_token, quoted, Re.DURATION_PATTERN.
    cbn [String.append]. reflexivity. }
  unfold _parse_note. cbn [is_nil index nth_error bind]. rewrite Hp, Htie. cbn [negb].
  unfold look_for_duration, look_for_lyric.
  repeat split.
  - intros d dot l Hl. cbn [List.length Nat.ltb Nat.leb index nth_error bind].
    rewrite (duration_token_read d dot).
    cbn [bind Nat.add Nat.ltb Nat.leb List.length index nth_error].
    now rewrite (LYRIC_PATTERN_quoted l Hl).
  - intros d dot Hno. cbn [List.length Nat.ltb Nat.leb index nth_error bind].
    rewrite (duration_token_read d dot). cbn [bind Nat.add].
    destruct following as [|t ts]; [reflexivity|].
    destruct Hno as [_ Hl]. cbn [List.length Nat.ltb Nat.leb index nth_error bind].
    now rewrite Hl.
  - intros l Hl. cbn [List.length Nat.ltb Nat.leb index nth_error bind].
    rewrite (Hql l Hl). cbn [List.length Nat.ltb Nat.leb index nth_error bind].
    now rewrite (LYRIC_PATTERN_quoted l Hl).
  - intros Hno. destruct following as [|t ts]; [reflexivity|].
    destruct Hno as [Hd Hl]. cbn [List.length Nat.ltb Nat.leb index nth_error bind].
    unfold _parse_duration_token. rewrite Hd.
    cbn [List.length Nat.ltb Nat.leb index nth_error bind]. now rewrite Hl.
Qed.

(** ** Command lines *)

Lemma keyword_matches (kw : string) :
  forall (m rest : string),
    PyStr.lower m = kw -> Re.keyword kw (m ++ rest) = Some (m, rest).
Proof.
  induction kw as [|k kw IH]; intros m rest H.
  - destruct m; [reflexivity | discriminate].
  - destruct m as [|c m]; [discriminate|].
    cbn [PyStr.lower PyStr.map_chars] in H. inversion H as [[Hc Hm]].
    cbn [String.append Re.keyword]. rewrite Hc, Ascii.eqb_refl.
    now rewrite Hm, (IH m rest Hm).
Qed.

Lemma span_line_no_newline (s : string) :
  no_newline s = true -> Re.span_line s = (s, "").
Proof.
  induction s as [|c s IH]; [reflexivity|].
  cbn [no_newline Re.span_line]. rewrite andb_true_iff, negb_true_iff.
  intros [Hc Hs]. now rewrite Hc, (IH Hs).
Qed.

Lemma command_value_spaces (ws : string) (c : ascii) (v : string) :
  all_space ws = true -> PyStr.isspace c = false -> no_newline (String c v) = true ->
  Re.command_value (ws ++ String c v) = Some (String c v).
Proof.
  intros Hws Hc Hn. induction ws as [|w ws IH].
  - cbn [String.append Re.command_value]. rewrite Hc.
    unfold Re.dot_plus_dollar. now rewrite (span_line_no_newline _ Hn).
  - cbn [all_space] in Hws. apply andb_true_iff in Hws. destruct Hws as [Hw Hws].
    cbn [String.append Re.command_value]. now rewrite Hw, (IH Hws).
Qed.

Lemma command_alternative_matches (kw m tail v : string) :
  PyStr.lower m = kw -> Re.command_value tail = Some v ->
  Re.command_alternative kw (m ++ String ":" tail) = Some (m, v).
Proof.
  intros Hm Hv. unfold Re.command_alternative.
  now rewrite (keyword_matches kw m _ Hm), Hv.
Qed.

Lemma keyword_first_differs (kw line : string) (k c : ascii) :
  Ascii.eqb (PyStr.lower_char c) k = false ->
  Re.command_alternative (String k kw) (String c line) = None.
Proof. intros H. unfold Re.command_alternative. cbn [Re.keyword]. now rewrite H. Qed.

Lemma COMMAND_PATTERN_matches (kw m tail v : string) :
  In kw command_keywords ->
  PyStr.lower m = kw -> Re.command_value tail = Some v ->
  Re.COMMAND_PATTERN (m ++ String ":" tail) = Some (m, v).
Proof.
  intros Hin Hm Hv. pose proof (command_alternative_matches kw m tail v Hm Hv) as Hok.
  unfold Re.COMMAND_PATTERN.
  destruct Hin as [<-|[<-|[<-|[<-|[]]]]]; cbn [Re.first_alternative].
  - now rewrite Hok.
  - destruct m as [|c1 m]; [discriminate|].
    cbn [PyStr.lower PyStr.map_chars] in Hm. injection Hm as H1 Hrest.
    cbn [String.append] in *.
    rewrite (keyword_first_differs "ey" _ "k" c1) by (now rewrite H1).
    now rewrite Hok.
  - destruct m as [|c1 [|c2 m]]; try discriminate.
    cbn [PyStr.lower PyStr.map_chars] in Hm. injection Hm as H1 H2 Hrest.
    cbn [String.append] in *.
    rewrite (keyword_first_differs "ey" _ "k" c1) by (now rewrite H1).
    assert (Ht : Re.command_alternative "time" (String c1 (String c2 (m ++ String ":" tail)))
                 = None).
    { unfold Re.command_alternative. cbn [Re.keyword]. now rewrite H1, H2. }
    now rewrite Ht, Hok.
  - destruct m as [|c1 m]; [discriminate|].
    cbn [PyStr.lower PyStr.map_chars] in Hm. injection Hm as H1 Hrest.
    cbn [String.append] in *.
    rewrite (keyword_first_differs "ey" _ "k" c1) by (now rewrite H1).
    rewrite (keyword_first_differs "ime" _ "t" c1) by (now rewrite H1).
    rewrite (keyword_first_differs "empo" _ "t" c1) by (now rewrite H1).
    now rewrite Hok.
Qed.

(** X7. A line made of one of the four keywords in any case, a colon, any
    white space and a value that has no newline and no white space at
    either end is read as one command: the keyword in lower case, the value
    as it is written. *)
Theorem command_line :
  forall (kw m ws : string) (c : ascii) (v : string) (line_num : nat),
    In kw command_keywords ->
    PyStr.lower m = kw ->
    all_space ws = true ->
    no_newline (String c v) = true ->
    PyStr.strip (String c v) = String c v ->
    _parse_line (m ++ String ":" (ws ++ String c v)) line_num
    = Returned [Command (mkParsedCommand kw (String c v))].
Proof.
  intros kw m ws c v line_num Hin Hm Hws Hn Hs.
  assert (Hc : PyStr.isspace c = false).
  { unfold PyStr.strip in Hs. cbn [PyStr.lstrip] in Hs.
    destruct (PyStr.isspace c) eqn:Ec; [|reflexivity].
    exfalso. assert (Hlen : String.length (PyStr.rstrip (PyStr.lstrip v))
                            <= String.length v).
    { clear. induction v as [|x v IH]; [apply le_n|].
      cbn [PyStr.lstrip]. destruct (PyStr.isspace x).
      - cbn [String.length]. apply le_S, IH.
      - clear IH. generalize (String x v). intros s.
        induction s as [|y s IH]; [apply le_n|].
        cbn [PyStr.rstrip]. destruct (PyStr.isspace y && PyStr.is_empty (PyStr.rstrip s));
          cbn [String.length]; [apply Nat.le_0_l | now apply le_n_S]. }
    rewrite Hs in Hlen. cbn [String.length] in Hlen. lia. }
  unfold _parse_line.
  rewrite (COMMAND_PATTERN_matches kw m _ (String c v) Hin Hm
             (command_value_spaces ws c v Hws Hc Hn)).
  now rewrite Hm, Hs.
Qed.

(** ** A chord on a line of its own *)

Lemma split_char_no_newline (s : string) :
  no_newline s = true -> PyStr.split_char Re.newline s = [s].
Proof.
  induction s as [|c s IH]; [reflexivity|].
  cbn [no_newline PyStr.split_char]. rewrite andb_true_iff, negb_true_iff.
  intros [Hc Hs]. now rewrite Hc, (IH Hs).
Qed.

Lemma no_newline_push (s : string) (c : ascii) :
  no_newline s = true -> Ascii.eqb c Re.newline = false -> no_newline (push s c) = true.
Proof.
  intros Hs Hc. unfold push. induction s as [|x s IH]; cbn [String.append no_newline] in *.
  - now rewrite Hc.
  - apply andb_true_iff in Hs. destruct Hs as [Hx Hs]. now rewrite Hx, IH.
Qed.

Lemma push_not_empty (s : string) (c : ascii) : PyStr.is_empty (push s c) = false.
Proof. destruct s; reflexivity. Qed.

Lemma rstrip_push (s : string) (c : ascii) :
  PyStr.isspace c = false -> PyStr.rstrip (push s c) = push s c.
Proof.
  intros Hc. induction s as [|x s IH].
  - cbn. now rewrite Hc.
  - change (push (String x s) c) with (String x (push s c)).
    cbn [PyStr.rstrip]. now rewrite IH, push_not_empty, andb_false_r.
Qed.

Lemma endswith_char_push (s : string) (c : ascii) :
  PyStr.endswith_char (push s c) c = true.
Proof.
  induction s as [|x s IH].
  - cbn. apply Ascii.eqb_refl.
  - change (push (String x s) c) with (String x (push s c)).
    cbn [PyStr.endswith_char]. destruct (push s c) eqn:E; [|exact IH].
    destruct s; discriminate.
Qed.

Lemma drop_last_push (s : string) (c : ascii) : PyStr.drop_last (push s c) = s.
Proof.
  induction s as [|x s IH]; [reflexivity|].
  change (push (String x s) c) with (String x (push s c)).
  cbn [PyStr.drop_last]. destruct (push s c) eqn:E; [destruct s; discriminate|].
  now rewrite IH.
Qed.

Lemma _parse_chord_closed (body : string) :
  _parse_chord [String "[" (push body "]")]
  = if is_nil (chord_notes (PyStr.strip body))
    then Returned (None, 0)
    else Returned (Some (mkParsedChord (chord_notes (PyStr.strip body))
                           QUARTER false None), 1).
Proof.
  unfold _parse_chord. cbn [is_nil index nth_error bind].
  change (PyStr.startswith (String "[" (push body "]")) "[") with true. cbn [negb].
  change (PyStr.endswith_char (String "[" (push body "]")) "]")
    with (PyStr.endswith_char (String "[" (push body "]")) "]").
  assert (He : PyStr.endswith_char (String "[" (push body "]")) "]" = true).
  { cbn [PyStr.endswith_char]. destruct (push body "]") eqn:E;
      [destruct body; discriminate | rewrite <- E; apply endswith_char_push]. }
  rewrite He.
  change (PyStr.slice_1_m1 (String "[" (push body "]")))
    with (PyStr.drop_last (push body "]")).
  rewrite drop_last_push.
  fold (chord_notes (PyStr.strip body)).
  destruct (chord_notes (PyStr.strip body)); reflexivity.
Qed.

Lemma tokenize_closed_bracket (body : string) :
  no_bracket body = true ->
  _tokenize (String "[" (push body "]")) = [String "[" (push body "]")].
Proof.
  intros Hno. unfold _tokenize. cbn [tokenize_chars].
  change (tokenize_char (mkTokenizer [] "" false false) "[")
    with (mkTokenizer [] "[" false true).
  unfold push at 1 2. rewrite tokenize_chars_app.
  destruct (tokenize_inside_bracket body (mkTokenizer [] "[" false true) eq_refl Hno)
    as (Ht & Hc & _).
  cbn [tokenize_chars]. unfold tokenize_char.
  change (Ascii.eqb "]" Re.dquote) with false.
  change (Ascii.eqb "]" "[") with false.
  change (Ascii.eqb "]" "]") with true. cbv iota.
  cbn [tokens current]. rewrite Ht, Hc. cbn [tokens current app].
  change ("[" ++ body)%string with (String "[" body).
  change (push (String "[" body) "]") with (String "[" (push body "]")).
  unfold flush. change (PyStr.strip "") with "". cbn [PyStr.is_empty].
  unfold PyStr.strip. cbn [PyStr.lstrip].
  change (PyStr.isspace "[") with false. cbv iota.
  change (String "[" (push body "]")) with (push (String "[" body) "]").
  now rewrite rstrip_push.
Qed.

(** X8. A line that is one bracketed group, with no other bracket in it,
    is read as one chord of the pitches of the group, in their order, with
    the entries that are not pitches left out; when no entry is a pitch
    the line gives no element. *)
Theorem chord_line :
  forall (body : string) (self : CommandParser),
    no_bracket body = true ->
    no_newline body = true ->
    fst (parse (String "[" (body ++ "]")) self)
    = Returned
        (if is_nil (chord_notes (PyStr.strip body)) then []
         else [Chord (mkParsedChord (chord_notes (PyStr.strip body)) QUARTER false None)]).
Proof.
  intros body self Hb Hn.
  change (body ++ "]")%string with (push body "]").
  set (text := String "[" (push body "]")).
  assert (Hstrip : PyStr.strip text = text).
  { unfold PyStr.strip, text. cbn [PyStr.lstrip].
    change (PyStr.isspace "[") with false. cbv iota.
    change (String "[" (push body "]")) with (push (String "[" body) "]").
    now rewrite rstrip_push. }
  rewrite parse_elements.
  rewrite split_char_no_newline
    by (unfold text; cbn [no_newline]; now rewrite no_newline_push).
  rewrite kept_lines_cons. unfold skipped_line. rewrite Hstrip.
  change (PyStr.is_empty text || PyStr.startswith text "#") with false.
  cbn [app flat_map]. rewrite app_nil_r.
  unfold line_elements, _parse_line.
  change (Re.COMMAND_PATTERN text) with (@None (string * string)).
  change (dict_get BARLINE_PATTERNS text) with (@None string).
  unfold text at 1 2. rewrite (tokenize_closed_bracket body Hb). fold text.
  cbn [List.length token_loop Nat.ltb Nat.leb negb index nth_error bind].
  change (String.eqb (PyStr.lower text) "r") with false.
  change (PyStr.startswith text "[") with true. cbv iota.
  cbn [skipn]. unfold text at 1. rewrite _parse_chord_closed. fold text.
  destruct (chord_notes (PyStr.strip body)) as [|n ns]; cbn [is_nil bind].
  - change (dict_get BARLINE_PATTERNS text) with (@None string).
    change (_is_pitch text) with false. reflexivity.
  - reflexivity.
Qed.

(** ** The shape of the elements *)

Lemma lower_idempotent (s : string) : PyStr.lower (PyStr.lower s) = PyStr.lower s.
Proof.
  unfold PyStr.lower. induction s as [|c s IH]; [reflexivity|].
  cbn [PyStr.map_chars]. rewrite IH. f_equal.
  destruct c as [[] [] [] [] [] [] [] []]; reflexivity.
Qed.

Lemma barline_style (token style : string) :
  dict_get BARLINE_PATTERNS token = Some style ->
  In style ["single"; "double"; "final"].
Proof.
  unfold BARLINE_PATTERNS. cbn [dict_get].
  repeat match goal with
         | |- context [if String.eqb ?a ?b then _ else _] => destruct (String.eqb a b)
         end; intros H; inversion H; cbn; auto.
Qed.

Lemma _parse_note_well_formed (tokens : list string) (n : ParsedNote) (k : nat) :
  _parse_note tokens = Returned (Some n, k) -> well_formed (Note n).
Proof.
  intros H. pose proof (parsed_note_is_never_tied tokens n k H) as Ht.
  unfold _parse_note in H. destruct tokens as [|t ts]; [discriminate|].
  cbn [is_nil index nth_error bind] in H.
  destruct (_is_pitch t) eqn:E; cbn [negb] in H; [|discriminate].
  rewrite (tie_suffix_is_not_pitch t E) in H.
  destruct (look_for_duration_returns (t :: ts) 1) as (d & dot & c1 & Hd & _).
  rewrite Hd in H. cbn [bind] in H.
  destruct (look_for_lyric_returns (t :: ts) c1) as (l & c2 & Hl & _).
  rewrite Hl in H. cbn [bind] in H. inversion H; subst.
  cbn. repeat split. exists t. auto.
Qed.

Lemma _parse_chord_well_formed (tokens : list string) (c : ParsedChord) (k : nat) :
  _parse_chord tokens = Returned (Some c, k) -> well_formed (Chord c).
Proof.
  unfold _parse_chord. destruct tokens as [|t ts]; [discriminate|].
  cbn [is_nil index nth_error bind].
  destruct (PyStr.startswith t "["); cbn [negb]; [|discriminate].
  match goal with |- context [filter _is_pitch ?l] => generalize l end.
  intros pitch_strings.
  destruct (map _ (filter _is_pitch pitch_strings)) as [|n0 ns] eqn:En;
    cbn [is_nil]; [discriminate|].
  destruct (look_for_duration_returns (t :: ts) 1) as (d & dot & c1 & -> & _).
  cbn [bind].
  destruct (look_for_lyric_returns (t :: ts) c1) as (l & c2 & -> & _).
  cbn [bind]. intros H. inversion H; subst. cbn [well_formed notes].
  split; [discriminate|]. rewrite <- En.
  apply Forall_map. apply Forall_forall. intros p Hp.
  apply filter_In in Hp. exists p. tauto.
Qed.

Lemma token_loop_well_formed (fuel : nat) :
  forall (tokens : list string) (i : nat) (elements r : list ParsedElement),
    Forall well_formed elements ->
    token_loop fuel tokens i elements = Returned r ->
    Forall well_formed r.
Proof.
  induction fuel as [|fuel IH]; intros tokens i elements r Hwf H.
  - cbn [token_loop] in H.
    destruct (i <? List.length tokens)%nat; cbn [negb] in H; [discriminate|].
    now inversion H; subst.
  - cbn [token_loop] in H.
    destruct (i <? List.length tokens)%nat; cbn [negb] in H;
      [|now inversion H; subst].
    destruct (index tokens i) as [token| |]; cbn [bind] in H; try discriminate.
    assert (Hadd : forall e, well_formed e -> Forall well_formed (elements ++ [e])).
    { intros e He. apply Forall_app. split; [exact Hwf | now constructor]. }
    destruct (String.eqb (PyStr.lower token) "r").
    + destruct (if (i + 1 <? List.length tokens)%nat then index tokens (i + 1)
                else Returned "q") as [next| |]; cbn [bind] in H; try discriminate.
      destruct (_parse_duration_token next) as [[d|] dot];
        (eapply IH; [|exact H]); now apply Hadd.
    + destruct (if PyStr.startswith token "[" then _parse_chord (skipn i tokens)
                else Returned (None, 0)) as [[[chord|] c]| |] eqn:Ec;
        cbn [bind] in H; try discriminate.
      { eapply IH; [|exact H]. apply Hadd.
        destruct (PyStr.startswith token "["); [|discriminate].
        eapply _parse_chord_well_formed. eassumption. }
      destruct (dict_get BARLINE_PATTERNS token) as [style|] eqn:Eb.
      { eapply IH; [|exact H]. apply Hadd. eapply barline_style. eassumption. }
      destruct (if _is_pitch token then _parse_note (skipn i tokens)
                else Returned (None, 0)) as [[[note|] c']| |] eqn:En;
        cbn [bind] in H; try discriminate.
      * eapply IH; [|exact H]. apply Hadd.
        destruct (_is_pitch token); [|discriminate].
        eapply _parse_note_well_formed. eassumption.
      * eapply IH; [exact Hwf | exact H].
Qed.

Lemma line_elements_well_formed (line : string) : Forall well_formed (line_elements line).
Proof.
  unfold line_elements, _parse_line.
  destruct (Re.COMMAND_PATTERN line) as [[g1 g2]|] eqn:Ec.
  - constructor; [|constructor]. cbn [well_formed command value].
    split; [apply lower_idempotent | apply strip_idempotent].
  - destruct (dict_get BARLINE_PATTERNS line) as [style|] eqn:Eb.
    + constructor; [|constructor]. eapply barline_style. eassumption.
    + destruct (token_loop _ _ 0 []) as [r| |] eqn:E; try constructor.
      eapply token_loop_well_formed; [|exact E]. constructor.
Qed.

Lemma lines_well_formed (lines : list string) :
  Forall well_formed (flat_map line_elements lines).
Proof.
  induction lines as [|line lines IH]; [constructor|].
  cbn [flat_map]. apply Forall_app. split; [apply line_elements_well_formed | exact IH].
Qed.

(** X9. Every element the parser returns is well formed: a note is not
    tied, not slurred, and its pitch is a token of the pitch grammar in
    upper case; a chord has at least one note and its notes are such
    pitches with the default fields; a barline has one of the styles
    single, double and final; the name of a command is in lower case and
    its value has no white space around it. *)
Theorem parsed_elements_well_formed :
  forall (text : string), Forall well_formed (parsed_elements text).
Proof.
  intros text. rewrite parsed_elements_lines. apply lines_well_formed.
Qed.

(** ** The tokens of a line, one element at a time *)

Lemma token_loop_step (fuel : nat) (tokens : list string) (i : nat)
  (acc : list ParsedElement) :
  i < List.length tokens ->
  token_loop (S fuel) tokens i acc
  = bind (first_element (skipn i tokens))
         (fun r => token_loop fuel tokens (i + snd r) (acc ++ fst r)).
Proof.
  intros Hi. cbn [token_loop].
  pose proof Hi as Hlt. apply Nat.ltb_lt in Hlt. rewrite Hlt. cbn [negb].
  pose proof (nth_error_skipn i tokens 0) as H0.
  pose proof (nth_error_skipn i tokens 1) as H1.
  rewrite Nat.add_0_r in H0.
  destruct (skipn i tokens) as [|token following] eqn:E.
  { apply (f_equal (@List.length string)) in E. rewrite length_skipn in E.
    cbn in E. lia. }
  cbn [nth_error] in H0, H1. unfold index at 1. rewrite <- H0. cbn [bind first_element].
  destruct (String.eqb (PyStr.lower token) "r").
  - destruct following as [|next after]; cbn [nth_error] in H1.
    + symmetry in H1. apply nth_error_None in H1.
      assert (Hn : (i + 1 <? List.length tokens)%nat = false) by (apply Nat.ltb_ge; exact H1).
      rewrite Hn. cbn [bind]. reflexivity.
    + assert (Hn : (i + 1 <? List.length tokens)%nat = true).
      { apply Nat.ltb_lt. apply nth_error_Some. congruence. }
      rewrite Hn. unfold index. rewrite <- H1. cbn [bind].
      destruct (_parse_duration_token next) as [[d|] dot]; reflexivity.
  - destruct (if PyStr.startswith token "[" then _parse_chord (token :: following)
              else Returned (None, 0)) as [[[chord|] c]| |]; cbn [bind]; try reflexivity.
    destruct (dict_get BARLINE_PATTERNS token); cbn [bind]; [reflexivity|].
    destruct (if _is_pitch token then _parse_note (token :: following)
              else Returned (None, 0)) as [[[note|] c']| |]; cbn [bind fst snd];
      rewrite ?app_nil_r; reflexivity.
Qed.

Lemma first_element_took (token : string) (following : list string) :
  exists es c, first_element (token :: following) = Returned (es, c) /\ 1 <= c.
Proof.
  cbn [first_element].
  destruct (String.eqb (PyStr.lower token) "r").
  - destruct (_parse_duration_token _) as [[d|] dot]; eexists _, _; split;
      try reflexivity; lia.
  - assert (Hc : took (if PyStr.startswith token "[" then _parse_chord (token :: following)
                       else Returned (None, 0))).
    { destruct (PyStr.startswith token "["); [apply _parse_chord_took | now left]. }
    destruct Hc as [-> | (ch & c & -> & Hc)]; cbn [bind].
    2: { eexists _, _; split; [reflexivity | exact Hc]. }
    destruct (dict_get BARLINE_PATTERNS token).
    { eexists _, _; split; [reflexivity | lia]. }
    assert (Hn : took (if _is_pitch token then _parse_note (token :: following)
                       else Returned (None, 0))).
    { destruct (_is_pitch token); [apply _parse_note_took | now left]. }
    destruct Hn as [-> | (n & c & -> & Hc)]; cbn [bind];
      eexists _, _; split; try reflexivity; lia.
Qed.

(** With enough iterations the loop returns the elements it was given
    followed by those of the tokens that are left. *)
Lemma token_loop_suffix (fuel : nat) :
  forall (tokens : list string) (i : nat) (acc : list ParsedElement),
    List.length tokens - i <= fuel ->
    token_loop fuel tokens i acc
    = Returned (acc ++ tokens_elements (skipn i tokens)).
Proof.
  induction fuel as [fuel IH] using lt_wf_ind. intros tokens i acc Hf.
  destruct (Nat.lt_ge_cases i (List.length tokens)) as [Hi | Hi].
  - destruct fuel as [|f]; [lia|].
    rewrite (token_loop_step f tokens i acc Hi).
    unfold tokens_elements.
    assert (Hl : List.length (skipn i tokens) = S (List.length tokens - i - 1))
      by (rewrite length_skipn; lia).
    rewrite Hl.
    rewrite (token_loop_step _ (skipn i tokens) 0 []) by (rewrite Hl; lia).
    cbn [skipn].
    destruct (skipn i tokens) as [|token following] eqn:E; [discriminate|].
    destruct (first_element_took token following) as (es & c & -> & Hc).
    cbn [bind fst snd app Nat.add].
    rewrite (IH f) by lia.
    rewrite (IH (List.length tokens - i - 1)); [|lia|rewrite Hl; lia].
    rewrite <- E, skipn_skipn, (Nat.add_comm c i), <- app_assoc. reflexivity.
  - assert (Hn : (i <? List.length tokens)%nat = false) by (apply Nat.ltb_ge; exact Hi).
    rewrite (skipn_all2 tokens Hi). cbn. rewrite app_nil_r.
    destruct fuel; cbn [token_loop]; rewrite Hn; reflexivity.
Qed.

Lemma tokens_elements_cons (token : string) (following : list string)
  (es : list ParsedElement) (c : nat) :
  first_element (token :: following) = Returned (es, c) ->
  tokens_elements (token :: following) = es ++ tokens_elements (skipn (c - 1) following).
Proof.
  intros H. destruct (first_element_took token following) as (es' & c' & H' & Hc).
  rewrite H in H'. inversion H'; subst es' c'. clear H'.
  unfold tokens_elements at 1. cbn [List.length].
  rewrite (token_loop_step _ (token :: following) 0 []) by (cbn; lia).
  cbn [skipn]. rewrite H. cbn [bind fst snd app Nat.add].
  rewrite token_loop_suffix by (cbn [List.length]; lia).
  destruct c as [|c]; [lia|]. cbn [skipn Nat.sub]. now rewrite Nat.sub_0_r.
Qed.

Lemma pitch_is_no_other_token (token : string) :
  _is_pitch token = true ->
  String.eqb (PyStr.lower token) "r" = false
  /\ PyStr.startswith token "[" = false
  /\ dict_get BARLINE_PATTERNS token = None.
Proof.
  unfold _is_pitch, Re.PITCH_PATTERN. destruct token as [|c r]; [discriminate|].
  intros H. apply andb_true_iff in H. destruct H as [Hc _].
  destruct c as [[] [] [] [] [] [] [] []]; try discriminate Hc; repeat split.
Qed.

Lemma barline_is_no_other_token (token style : string) :
  dict_get BARLINE_PATTERNS token = Some style ->
  String.eqb (PyStr.lower token) "r" = false
  /\ PyStr.startswith token "[" = false.
Proof.
  unfold BARLINE_PATTERNS. cbn [dict_get].
  destruct (String.eqb token "|||") eqn:E1; [apply String.eqb_eq in E1; subst; auto|].
  destruct (String.eqb token "||") eqn:E2; [apply String.eqb_eq in E2; subst; auto|].
  destruct (String.eqb token "|") eqn:E3; [apply String.eqb_eq in E3; subst; auto|].
  destruct (String.eqb token "measure") eqn:E4; [apply String.eqb_eq in E4; subst; auto|].
  discriminate.
Qed.

Lemma bracket_is_no_rest (token : string) :
  PyStr.startswith token "[" = true -> String.eqb (PyStr.lower token) "r" = false.
Proof.
  destruct token as [|c r]; [discriminate|]. cbn [PyStr.startswith].
  rewrite andb_true_r. intros H. apply Ascii.eqb_eq in H. subst c. reflexivity.
Qed.

(** X20. The loop of [_parse_line] reads a line one element at a time, and
    what it reads after an element depends only on the tokens that are
    left. A rest token followed by a duration token is a rest of that
    duration and takes both; followed by anything that is not a duration,
    or by nothing, it is a quarter rest. A barline token is a barline. A
    pitch token is the note [_parse_note] reads, and a bracket token the
    chord [_parse_chord] reads, with the tokens they take. A token that is
    none of these is passed over. *)
Theorem tokens_read_in_turn :
  forall (token : string) (following : list string),
    (PyStr.lower token = "r" ->
     (forall d dot after,
         following = duration_token d dot :: after ->
         tokens_elements (token :: following)
         = Rest (mkParsedRest d dot) :: tokens_elements after)
     /\ (no_duration following ->
         tokens_elements (token :: following)
         = Rest (mkParsedRest QUARTER false) :: tokens_elements following))
    /\ (forall style,
           dict_get BARLINE_PATTERNS token = Some style ->
           tokens_elements (token :: following)
           = Barline (mkParsedBarline style) :: tokens_elements following)
    /\ (forall n c,
           _is_pitch token = true ->
           _parse_note (token :: following) = Returned (Some n, c) ->
           tokens_elements (token :: following)
           = Note n :: tokens_elements (skipn (c - 1) following))
    /\ (forall ch c,
           PyStr.startswith token "[" = true ->
           _parse_chord (token :: following) = Returned (Some ch, c) ->
           tokens_elements (token :: following)
           = Chord ch :: tokens_elements (skipn (c - 1) following))
    /\ (PyStr.lower token <> "r" ->
        PyStr.startswith token "[" = false ->
        dict_get BARLINE_PATTERNS token = None ->
        _is_pitch token = false ->
        tokens_elements (token :: following) = tokens_elements following).
Proof.
  intros token following. repeat split.
  - intros d dot after ->.
    rewrite (tokens_elements_cons token _ [Rest (mkParsedRest d dot)] 2); [reflexivity|].
    cbn [first_element]. rewrite H. cbn [String.eqb Ascii.eqb Bool.eqb].
    now rewrite duration_token_read.
  - intros Hn. destruct following as [|t after].
    + rewrite (tokens_elements_cons token _ [Rest (mkParsedRest QUARTER false)] 2);
        [reflexivity|].
      cbn [first_element]. rewrite H. reflexivity.
    + rewrite (tokens_elements_cons token _ [Rest (mkParsedRest QUARTER false)] 1);
        [reflexivity|].
      cbn [first_element]. rewrite H. cbn [String.eqb Ascii.eqb Bool.eqb].
      unfold _parse_duration_token. cbn [no_duration] in Hn. now rewrite Hn.
  - intros style Hs. destruct (barline_is_no_other_token token style Hs) as [Hr Hb].
    rewrite (tokens_elements_cons token _ [Barline (mkParsedBarline style)] 1);
      [reflexivity|].
    cbn [first_element]. rewrite Hr, Hb. cbn [bind]. now rewrite Hs.
  - intros n c Hp Hn. destruct (pitch_is_no_other_token token Hp) as (Hr & Hb & Hd).
    rewrite (tokens_elements_cons token _ [Note n] c); [reflexivity|].
    cbn [first_element]. rewrite Hr, Hb. cbn [bind]. rewrite Hd, Hp, Hn. reflexivity.
  - intros ch c Hb Hc.
    rewrite (tokens_elements_cons token _ [Chord ch] c); [reflexivity|].
    cbn [first_element]. rewrite (bracket_is_no_rest token Hb), Hb, Hc. reflexivity.
  - intros Hr Hb Hd Hp.
    rewrite (tokens_elements_cons token _ [] 1); [reflexivity|].
    cbn [first_element]. apply String.eqb_neq in Hr. rewrite Hr, Hb. cbn [bind].
    rewrite Hd, Hp. reflexivity.
Qed.

(** ** The name and the octave of a parsed note *)

Lemma at_dollar_before_digit (r : string) (d : ascii) :
  PyStr.isdigit d = true -> Re.at_dollar (r ++ String d "") = false.
Proof.
  intros Hd. destruct r as [|c [|c2 r]]; cbn [String.append Re.at_dollar]; try reflexivity.
  destruct d as [[] [] [] [] [] [] [] []]; try discriminate Hd; reflexivity.
Qed.

Lemma accidental_inv (a : ascii) :
  Re.accidental a = true -> a = "#"%char \/ a = "b"%char.
Proof.
  unfold Re.accidental. rewrite orb_true_iff, !Ascii.eqb_eq. tauto.
Qed.

Lemma pitch_token_inv (letter : ascii) (accs : string) (digit : ascii) :
  PyStr.isdigit digit = true ->
  _is_pitch (String letter (accs ++ String digit "")) = true ->
  Re.pitch_letter letter = true
  /\ In accs ["#"; "b"; "##"; "#b"; "b#"; "bb"; ""].
Proof.
  intros Hd. unfold _is_pitch, Re.PITCH_PATTERN.
  rewrite andb_true_iff. intros [Hl H]. split; [exact Hl|].
  destruct accs as [|a r]; [cbn; tauto|].
  cbn [String.append Re.octave_end] in H.
  rewrite (at_dollar_before_digit r digit Hd), andb_false_r in H. cbn [orb] in H.
  apply andb_true_iff in H. destruct H as [Ha H].
  destruct r as [|a2 r2].
  - destruct (accidental_inv a Ha) as [-> | ->]; cbn; tauto.
  - cbn [String.append Re.octave_end] in H.
    rewrite (at_dollar_before_digit r2 digit Hd), andb_false_r in H. cbn [orb] in H.
    apply andb_true_iff in H. destruct H as [Ha2 H].
    destruct r2 as [|x r3].
    + destruct (accidental_inv a Ha) as [-> | ->];
        destruct (accidental_inv a2 Ha2) as [-> | ->]; cbn; tauto.
    + cbn [String.append Re.octave_end] in H.
      now rewrite (at_dollar_before_digit r3 digit Hd), andb_false_r in H.
Qed.

(** X21. For the note of a pitch token (a letter, up to two accidentals
    and a digit) the octave is the digit, and the name is the letter in
    upper case followed by the sharps that come first: the pitch was put in
    upper case, so that a flat and what follows it are not in the name. The
    name and the digit make up the pitch exactly when the accidentals are
    all sharps. *)
Theorem pitch_name_and_octave :
  forall (letter : ascii) (accs : string) (digit : ascii),
    PyStr.isdigit digit = true ->
    _is_pitch (String letter (accs ++ String digit "")) = true ->
    let n := ParsedNote_of_pitch (PyStr.upper (String letter (accs ++ String digit ""))) in
    octave n = Returned (PyStr.code digit - 48)%N
    /\ pitch_name n = String (PyStr.upper_char letter) (leading_sharps accs)
    /\ (pitch n = (pitch_name n ++ String digit "")%string <-> leading_sharps accs = accs).
Proof.
  intros letter accs digit Hd Hp. cbv zeta.
  destruct (pitch_token_inv letter accs digit Hd Hp) as [Hl Ha].
  clear Hp.
  destruct letter as [[] [] [] [] [] [] [] []]; try discriminate Hl; clear Hl;
    destruct digit as [[] [] [] [] [] [] [] []]; try discriminate Hd; clear Hd;
    cbn [In] in Ha;
    destruct Ha as [<-|[<-|[<-|[<-|[<-|[<-|[<-|[]]]]]]]];
    vm_compute; (split; [reflexivity|]); (split; [reflexivity|]);
    split; intros H; first [reflexivity | discriminate H].
Qed.

(** * Properties of the structural builder *)

(** C7. The last measure is dropped when all it holds is a rest, and when
    all it holds is a tempo marking: the build of a single quarter rest,
    and the build of the single command [tempo: 100], give a part with no
    measure, where the measure is expected in the part. With a note in it
    the last measure is kept. *)
Theorem final_measure_with_rest_dropped :
  Sample.create_score_from_elements [Rest (mkParsedRest QUARTER false)] "Untitled" new_executor
  = (Returned (mkScore "Untitled" [mkPart "Part 1" TrebleClef []]), new_executor)
  /\ Sample.create_score_from_elements
       [Command (mkParsedCommand "tempo" "100")] "Untitled" new_executor
     = (Returned (mkScore "Untitled" [mkPart "Part 1" TrebleClef []]), new_executor)
  /\ Sample.create_score_from_elements [Sample.quarter "C4"] "Untitled" new_executor
     = (Returned (mkScore "Untitled"
          [mkPart "Part 1" TrebleClef
             [mkMeasure 1 [(0%Q, ENote (mkM21Note "C4" 1 None None))] None]]),
        new_executor).
Proof. repeat split. Qed.

(** What [_create_note] returns, when it returns. *)
Lemma _create_note_returned (n : ParsedNote) (self self' : CommandExecutor) (x : M21Note) :
  _create_note Pitch_accepts Lyric_of n self = (Returned x, self') ->
  Pitch_accepts (pitch n) = true /\ tied n = false /\ _pending_tie self = None
  /\ x = made_note n /\ self' = self.
Proof.
  unfold _create_note, made_note.
  destruct (Pitch_accepts (pitch n)); cbn [negb]; [|discriminate].
  destruct (tied n); [discriminate|].
  destruct (_pending_tie self); [discriminate|].
  intros H. inversion H. auto.
Qed.

Lemma _create_note_plain (n : ParsedNote) (self : CommandExecutor) :
  Pitch_accepts (pitch n) = true -> tied n = false -> _pending_tie self = None ->
  _create_note Pitch_accepts Lyric_of n self = (Returned (made_note n), self).
Proof.
  intros Hp Ht Hs. unfold _create_note, made_note. now rewrite Hp, Ht, Hs.
Qed.

(** The executor is the same after [_create_note], whatever the outcome. *)
Lemma _create_note_self (n : ParsedNote) (self : CommandExecutor) :
  snd (_create_note Pitch_accepts Lyric_of n self) = self.
Proof.
  unfold _create_note.
  destruct (negb _); [reflexivity|]. destruct (tied n); [reflexivity|].
  destruct (_pending_tie self); reflexivity.
Qed.

Lemma step_note (n : ParsedNote) (st : builder) (self : CommandExecutor) :
  Pitch_accepts (pitch n) = true -> tied n = false -> _pending_tie self = None ->
  step (Note n) st self = (Returned (place st (ENote (made_note n))), self).
Proof.
  intros Hp Ht Hs. unfold step, build_step, _create_music_element.
  rewrite (_create_note_plain n self Hp Ht Hs). reflexivity.
Qed.

Lemma loop_cons (e : ParsedElement) (es : list ParsedElement)
  (st : builder) (self : CommandExecutor) :
  loop (e :: es) st self
  = match step e st self with
    | (Returned st', self') => loop es st' self'
    | failed => failed
    end.
Proof. reflexivity. Qed.

Lemma loop_app (a b : list ParsedElement) :
  forall st self,
    loop (a ++ b) st self
    = match loop a st self with
      | (Returned st', self') => loop b st' self'
      | failed => failed
      end.
Proof.
  induction a as [|e a IH]; intros st self; [reflexivity|].
  cbn [app]. rewrite !loop_cons.
  destruct (step e st self) as [[st'| |] self']; try reflexivity. apply IH.
Qed.

(** ** The executor is not changed by a build *)

Lemma step_self (e : ParsedElement) (st : builder) (self : CommandExecutor) :
  snd (step e st self) = self.
Proof.
  unfold step, build_step. destruct e as [n|r|c|b|c].
  - unfold _create_music_element.
    pose proof (_create_note_self n self) as H.
    destruct (_create_note Pitch_accepts Lyric_of n self) as [r s]. exact H.
  - reflexivity.
  - reflexivity.
  - reflexivity.
  - destruct (_create_command_element _ _ _) as [x|]; [|reflexivity].
    destruct (truth x); reflexivity.
Qed.

Lemma loop_self (elems : list ParsedElement) :
  forall st self, snd (loop elems st self) = self.
Proof.
  induction elems as [|e elems IH]; intros st self; [reflexivity|].
  rewrite loop_cons. pose proof (step_self e st self) as H.
  destruct (step e st self) as [[st'| |] self']; cbn [snd] in H; subst;
    [apply IH | reflexivity | reflexivity].
Qed.

Lemma create_self (elems : list ParsedElement) (title : string) (self : CommandExecutor) :
  snd (create elems title self) = self.
Proof.
  unfold create, create_score_from_elements. fold loop.
  pose proof (loop_self elems initial_builder self) as H.
  destruct (loop elems initial_builder self) as [r s]. exact H.
Qed.

(** ** Five quarter notes *)

(** C8. Five quarter notes, not dotted and not tied, built with 4 beats to
    the measure on an executor that holds no pending tie, give exactly two
    measures: measure 1 with the first four notes at the offsets 0, 1, 2
    and 3, and measure 2 with the fifth note at offset 0; there is no
    third measure. *)
Theorem five_quarters_two_measures :
  forall (n1 n2 n3 n4 n5 : ParsedNote) (title : string) (self : CommandExecutor),
    Forall (fun n => duration n = QUARTER /\ dotted n = false /\ tied n = false
                     /\ Pitch_accepts (pitch n) = true) [n1; n2; n3; n4; n5] ->
    _pending_tie self = None ->
    exists (e1 e2 e3 e4 e5 : M21Note),
      create [Note n1; Note n2; Note n3; Note n4; Note n5] title self
      = (Returned (mkScore title
           [mkPart "Part 1" TrebleClef
              [mkMeasure 1 [(0%Q, ENote e1); (1%Q, ENote e2);
                            (2%Q, ENote e3); (3%Q, ENote e4)] None;
               mkMeasure 2 [(0%Q, ENote e5)] None]]),
         self)
      /\ map note_pitch [e1; e2; e3; e4; e5] = map pitch [n1; n2; n3; n4; n5]
      /\ map note_quarterLength [e1; e2; e3; e4; e5] = [1; 1; 1; 1; 1]%Q
      /\ map note_tie [e1; e2; e3; e4; e5] = [None; None; None; None; None].
Proof.
  intros n1 n2 n3 n4 n5 title self H Hs.
  repeat match goal with
         | H : Forall _ (_ :: _) |- _ => inversion H; subst; clear H
         | H : _ /\ _ |- _ => destruct H
         end.
  unfold create, create_score_from_elements.
  fold loop.
  repeat (rewrite loop_cons; rewrite step_note by assumption; cbv beta iota).
  cbn [loop build_loop bind].
  exists (made_note n1), (made_note n2), (made_note n3), (made_note n4), (made_note n5).
  split; [|split; [|split]].
  - unfold made_note.
    repeat match goal with H : duration _ = _ |- _ => rewrite H; clear H end.
    repeat match goal with H : dotted _ = _ |- _ => rewrite H; clear H end.
    vm_compute. reflexivity.
  - reflexivity.
  - unfold made_note. cbn [map note_quarterLength].
    repeat match goal with H : duration _ = _ |- _ => rewrite H; clear H end.
    repeat match goal with H : dotted _ = _ |- _ => rewrite H; clear H end.
    reflexivity.
  - reflexivity.
Qed.

(** ** Ties *)

Lemma step_tie_raises (n : ParsedNote) (st : builder) (self : CommandExecutor) :
  Pitch_accepts (pitch n) = true ->
  tied n = true \/ _pending_tie self <> None ->
  step (Note n) st self = (Raised AttributeError, self).
Proof.
  intros Hp H. unfold step, build_step, _create_music_element, _create_note.
  rewrite Hp. cbn [negb]. destruct (tied n); [reflexivity|].
  destruct H as [H|H]; [discriminate|].
  destruct (_pending_tie self); [reflexivity | congruence].
Qed.

Lemma flat_map_snoc {A B : Type} (f : A -> list B) (l : list A) (x : A) :
  flat_map f (l ++ [x]) = flat_map f l ++ f x.
Proof. rewrite flat_map_app. cbn. now rewrite app_nil_r. Qed.

Lemma place_notes (st : builder) (e : M21Element) :
  builder_notes (place st e) = builder_notes st ++ element_notes e.
Proof.
  unfold builder_notes, place, part_notes, measure_notes.
  destruct (Qle_bool _ _); cbn [part current_measure close_measure part_append
                                measures append elements new_measure];
    rewrite !flat_map_snoc; cbn [snd flat_map app];
    rewrite ?app_nil_r, ?app_assoc; reflexivity.
Qed.

(** C4. The build of [A tied; B; C] does not come to B: at the tied note
    A, once music21 has taken its pitch, [_create_note] raises
    [AttributeError] where it is to mark the tie start; no note is marked,
    nothing is recorded as pending, and the executor is as it was. In any
    sequence the build stops in this way at the first note it reaches that
    is tied, and at the first note whatever when a tie is pending in the
    executor at entry. *)
Theorem tied_note_raises :
  (forall (a b c : ParsedNote) (title : string) (self : CommandExecutor),
      tied a = true -> Pitch_accepts (pitch a) = true ->
      create [Note a; Note b; Note c] title self = (Raised AttributeError, self))
  /\ (forall (before after : list ParsedElement) (n : ParsedNote) (title : string)
             (self self' : CommandExecutor) (st : builder),
         loop before initial_builder self = (Returned st, self') ->
         Pitch_accepts (pitch n) = true ->
         tied n = true \/ _pending_tie self <> None ->
         create (before ++ Note n :: after) title self = (Raised AttributeError, self)).
Proof.
  split.
  - intros a b c title self Ha Hp.
    unfold create, create_score_from_elements. fold loop.
    rewrite loop_cons, (step_tie_raises a _ self Hp (or_introl Ha)). reflexivity.
  - intros before after n title self self' st Hl Hp H.
    pose proof (loop_self before initial_builder self) as Hs.
    rewrite Hl in Hs. cbn [snd] in Hs. subst self'.
    unfold create, create_score_from_elements. fold loop.
    rewrite loop_app, Hl, loop_cons, (step_tie_raises n st self Hp H). reflexivity.
Qed.

(** ** The executor between two builds *)

(** C5. A build does not write the executor: the executor is after the
    build what it was before, whether the build returned or raised, and a
    build that follows another on the same executor gives what it gives
    without the other. *)
Theorem build_after_build_same_result :
  forall (first second : list ParsedElement) (title1 title2 : string)
         (self : CommandExecutor),
    snd (create first title1 self) = self
    /\ create second title2 (snd (create first title1 self)) = create second title2 self.
Proof.
  intros first second title1 title2 self.
  rewrite (create_self first title1 self). split; reflexivity.
Qed.

(** ** Measures and their capacity *)

Lemma qadd_correct (a b : Q) : (qadd a b == a + b)%Q.
Proof. apply Qred_correct. Qed.

Lemma total_snoc (evs : list M21Element) (e : M21Element) :
  (total (evs ++ [e]) == total evs + quarterLength e)%Q.
Proof.
  induction evs as [|x evs IH]; cbn [total app fold_right].
  - ring.
  - fold (total (evs ++ [e])). fold (total evs). rewrite IH. ring.
Qed.

Lemma events_append (m : Measure) (e : M21Element) :
  events (append m e) = events m ++ (if is_event e then [e] else []).
Proof.
  unfold events, append. cbn [elements]. rewrite map_app, filter_app.
  cbn [map filter snd]. destruct (is_event e); reflexivity.
Qed.

Lemma events_set_last_rightBarline (p : Part) (style : string) :
  map events (measures (set_last_rightBarline p style)) = map events (measures p).
Proof.
  unfold set_last_rightBarline. destruct (rev (measures p)) as [|m before] eqn:E;
    [reflexivity|].
  destruct (at_offset_0 before); [reflexivity|].
  cbn [measures]. apply (f_equal (@rev Measure)) in E. rewrite rev_involutive in E.
  rewrite E. cbn [rev]. rewrite !map_app. reflexivity.
Qed.

Lemma _parse_key_signature_not_event (value : string) (x : M21Element) :
  _parse_key_signature Key_accepts value = Some x -> is_event x = false.
Proof.
  unfold _parse_key_signature.
  destruct (PyStr.split_ws (PyStr.strip value)) as [|tonic [|mode parts]].
  1, 2: destruct (Key_accepts _ None); intros H; inversion H; reflexivity.
  destruct (Key_accepts _ (Some _)); [intros H; inversion H; reflexivity|].
  destruct (Key_accepts _ None); intros H; inversion H; reflexivity.
Qed.

Lemma command_element_not_event (c : ParsedCommand) (x : M21Element) :
  _create_command_element Key_accepts TimeSignature_of c = Some x ->
  is_event x = false.
Proof.
  unfold _create_command_element.
  destruct (String.eqb _ "key"); [apply _parse_key_signature_not_event|].
  destruct (String.eqb _ "time").
  { unfold _parse_time_signature. destruct (TimeSignature_of _);
      intros H; inversion H; reflexivity. }
  destruct (String.eqb _ "tempo").
  { unfold _parse_tempo. destruct (Re.search_digits _); [|discriminate].
    destruct (int_of_digits _); intros H; inversion H; reflexivity. }
  destruct (String.eqb _ "clef"); [|discriminate].
  unfold _parse_clef. destruct (CLEF_MAP _); intros H; inversion H; reflexivity.
Qed.

(** A command leaves the events of the measures as they are. *)
Lemma step_command_spec (c : ParsedCommand) (st st' : builder)
  (self self' : CommandExecutor) :
  step (Command c) st self = (Returned st', self') ->
  measures (part st') = measures (part st)
  /\ events (current_measure st') = events (current_measure st)
  /\ measure_offset st' = measure_offset st.
Proof.
  unfold step, build_step.
  destruct (_create_command_element _ _ c) as [x|] eqn:E;
    [|intros H; inversion H; auto].
  apply command_element_not_event in E.
  destruct (truth x); [|intros H; inversion H; auto].
  destruct (match x with ETimeSignature ts => beats_of ts | _ => _ end) as [beats| |];
    cbn [bind]; intros H; inversion H.
  cbn [part current_measure measure_offset].
  rewrite events_append, E, app_nil_r. auto.
Qed.

(** A barline closes the current measure, whatever it holds. *)
Lemma step_barline_spec (b : ParsedBarline) (st st' : builder)
  (self self' : CommandExecutor) :
  step (Barline b) st self = (Returned st', self') ->
  map events (measures (part st'))
  = map events (measures (part st)) ++ [events (current_measure st)]
  /\ events (current_measure st') = []
  /\ measure_offset st' = 0%Q
  /\ beats_per_measure st' = beats_per_measure st.
Proof.
  unfold step, build_step. intros H. inversion H. clear H.
  cbn [part current_measure measure_offset beats_per_measure close_measure].
  repeat split.
  destruct (String.eqb (style b) "double"); [|destruct (String.eqb (style b) "final")];
    rewrite ?events_set_last_rightBarline; unfold part_append; cbn [measures];
    rewrite map_app; reflexivity.
Qed.

(** A note, rest or chord element gives one event of its whole length,
    unless it is a chord without notes, which gives nothing. *)
Lemma step_music_spec (e : ParsedElement) (st st' : builder)
  (self self' : CommandExecutor) :
  is_music e = true ->
  step e st self = (Returned st', self') ->
  (is_placed e = false /\ st' = st)
  \/ (is_placed e = true
      /\ exists x, is_event x = true /\ quarterLength x = elem_length e
                   /\ st' = place st x).
Proof.
  intros Hm. unfold step, build_step.
  destruct e as [n|r|c|b|c]; try discriminate; cbn [is_placed elem_length].
  - unfold _create_music_element.
    destruct (_create_note Pitch_accepts Lyric_of n self) as [[x| |] s] eqn:E;
      cbn [bind truth]; intros H; inversion H.
    right. split; [reflexivity|]. exists (ENote x). repeat split.
    destruct (_create_note_returned n self s x E) as (_ & _ & _ & -> & _). reflexivity.
  - cbn [_create_music_element bind truth]. intros H. inversion H.
    right. split; [reflexivity|]. exists (ERest (_create_rest r)). repeat split.
  - unfold _create_music_element, _create_chord.
    destruct (forallb _ (notes c)); cbn [bind]; [|discriminate].
    cbn [truth chord_pitches].
    destruct (notes c) as [|n0 ns] eqn:En; cbn [map is_nil negb];
      intros H; inversion H; [left; auto|].
    right. split; [reflexivity|].
    exists (EChord (mkM21Chord (pitch n0 :: map pitch ns)
                      (quarter_length (chord_duration c) (chord_dotted c))
                      (set_lyric Lyric_of (chord_lyric c)))).
    repeat split.
Qed.

(** Where [place] puts an event. *)
Lemma place_spec (st : builder) (x : M21Element) :
  is_event x = true ->
  beats_per_measure (place st x) = beats_per_measure st
  /\ ((Qle_bool (qadd (measure_offset st) (quarterLength x)) (beats_per_measure st) = true
       /\ measures (part (place st x)) = measures (part st)
       /\ events (current_measure (place st x)) = events (current_measure st) ++ [x]
       /\ measure_offset (place st x) = qadd (measure_offset st) (quarterLength x))
      \/ (Qle_bool (qadd (measure_offset st) (quarterLength x)) (beats_per_measure st) = false
          /\ measures (part (place st x)) = measures (part st) ++ [current_measure st]
          /\ events (current_measure (place st x)) = [x]
          /\ measure_offset (place st x) = qadd 0 (quarterLength x))).
Proof.
  intros Hx. unfold place.
  destruct (Qle_bool _ _) eqn:E;
    cbn [part current_measure measure_offset beats_per_measure close_measure
         part_append measures];
    rewrite events_append, Hx; (split; [reflexivity|]); [left | right]; auto.
Qed.

Lemma within_capacity_more (elems : list ParsedElement) (x : ParsedElement)
  (self : CommandExecutor) (evs : list M21Element) :
  within_capacity elems self evs -> within_capacity (elems ++ [x]) self evs.
Proof.
  intros [H | (before & e & after & st & self1 & -> & H)]; [left; exact H|].
  right. exists before, e, (after ++ [x]), st, self1.
  split; [|exact H]. now rewrite <- app_assoc.
Qed.

Lemma events_fit_less (elems : list ParsedElement) (x : ParsedElement)
  (self : CommandExecutor) :
  events_fit (elems ++ [x]) self -> events_fit elems self.
Proof.
  intros H before e after -> Hm. apply (H before e (after ++ [x])); [|exact Hm].
  now rewrite <- app_assoc.
Qed.

(** The invariant of the loop of the builder. *)
Lemma loop_packed (elems : list ParsedElement) (self : CommandExecutor) :
  forall st self',
    loop elems initial_builder self = (Returned st, self') ->
    events_fit elems self ->
    packed elems self st.
Proof.
  induction elems as [|x elems IH] using rev_ind; intros st' self' H Hfit.
  - inversion H. split; cbn; [constructor | left; reflexivity | reflexivity].
  - pose proof H as Hall. rewrite loop_app in H.
    destruct (loop elems initial_builder self) as [[st| |] self1] eqn:E;
      try discriminate.
    rewrite loop_cons in H.
    destruct (step x st self1) as [[st2| |] self2] eqn:Es; try discriminate.
    cbn in H. inversion H; subst st2 self2. clear H.
    destruct (IH st self1 eq_refl (events_fit_less _ _ _ Hfit)) as [Hp Hc Ho].
    assert (Hp' : Forall (within_capacity (elems ++ [x]) self)
                    (map events (measures (part st)))).
    { eapply Forall_impl; [|exact Hp]. intros evs. apply within_capacity_more. }
    apply (within_capacity_more _ x) in Hc.
    assert (Hcap : capacity_in_force elems self = beats_per_measure st).
    { unfold capacity_in_force. now rewrite E. }
    destruct x as [n|r|c|b|c].
    4: { apply step_barline_spec in Es. destruct Es as (Hm & He & Hoff & _).
         split.
         - rewrite Hm. apply Forall_app. split; [exact Hp' | constructor; [exact Hc | constructor]].
         - left. exact He.
         - rewrite Hoff, He. reflexivity. }
    4: { apply step_command_spec in Es. destruct Es as (Hm & He & Hoff).
         split.
         - rewrite Hm. exact Hp'.
         - rewrite He. exact Hc.
         - rewrite Hoff, He. exact Ho. }
    all: match type of Es with step ?e _ _ = _ =>
           assert (Hmus : is_music e = true) by reflexivity;
           destruct (step_music_spec e st st' self1 self' Hmus Es)
             as [[_ ->] | (_ & ev & Hev & Hlen & ->)]
         end.
    all: try (split; assumption).
    all: destruct (place_spec st ev Hev) as (_ & [(Hle & Hm & He & Hoff) | (Hle & Hm & He & Hoff)]).
    all: try (
      (* the event fits into the current measure *)
      apply Qle_bool_iff in Hle; rewrite qadd_correct in Hle;
      assert (Htot : (total (events (current_measure st) ++ [ev])
                      == measure_offset st + quarterLength ev)%Q)
        by (rewrite total_snoc, Ho; reflexivity);
      split;
      [ rewrite Hm; exact Hp'
      | right; eexists elems, _, [], _, self';
        split; [reflexivity|]; split; [exact Hmus|]; split; [exact Hall|];
        split; [reflexivity|]; rewrite He, Htot, Hcap; exact Hle
      | rewrite Hoff, He, Htot; apply qadd_correct ]).
    all: (
      (* the event opens a new measure *)
      assert (Htot : (total [ev] == quarterLength ev)%Q) by (cbn; ring);
      split;
      [ rewrite Hm, map_app; apply Forall_app; split;
        [exact Hp' | constructor; [exact Hc | constructor]]
      | right; eexists elems, _, [], _, self';
        split; [reflexivity|]; split; [exact Hmus|]; split; [exact Hall|];
        split; [reflexivity|]; rewrite He, Htot, Hlen;
        apply (Hfit elems _ []); [reflexivity | exact Hmus]
      | rewrite Hoff, He, Htot, qadd_correct; ring ]).
Qed.

Lemma build_within_capacity (elems : list ParsedElement) (title : string)
  (self self' : CommandExecutor) (score : Score) :
  create elems title self = (Returned score, self') ->
  events_fit elems self ->
  forall p m, In p (parts score) -> In m (measures p) ->
    within_capacity elems self (events m).
Proof.
  intros H Hfit p m Hp Hm.
  unfold create, create_score_from_elements in H. fold loop in H.
  destruct (loop elems initial_builder self) as [[st| |] s1] eqn:E;
    cbn [bind] in H; try discriminate.
  inversion H; subst. clear H.
  destruct (loop_packed elems self st self' E Hfit) as [Hpart Hcur _].
  destruct Hp as [<- | []].
  assert (Hin : In (events m) (map events (measures (part st) ++ [current_measure st]))).
  { apply in_map. unfold add_final_measure in Hm.
    destruct (_ || _) in Hm; [exact Hm | apply in_or_app; left; exact Hm]. }
  rewrite map_app in Hin. apply in_app_or in Hin.
  destruct Hin as [Hin | [<- | []]]; [|exact Hcur].
  rewrite Forall_forall in Hpart. apply Hpart. exact Hin.
Qed.

(** *** Without a change of meter the capacity is 4 *)

Lemma time_signature_from_time_command (c : ParsedCommand) (ts : TimeSignature) :
  _create_command_element Key_accepts TimeSignature_of c = Some (ETimeSignature ts) ->
  is_time_command (Command c) = true.
Proof.
  unfold _create_command_element, is_time_command.
  destruct (String.eqb _ "key").
  { unfold _parse_key_signature.
    destruct (PyStr.split_ws _) as [|tonic [|mode parts]];
      repeat match goal with
             | |- context [if Key_accepts ?t ?m then _ else _] => destruct (Key_accepts t m)
             end; discriminate. }
  destruct (String.eqb _ "time"); [reflexivity|].
  destruct (String.eqb _ "tempo").
  { unfold _parse_tempo. destruct (Re.search_digits _); [|discriminate].
    destruct (int_of_digits _); discriminate. }
  destruct (String.eqb _ "clef"); [|discriminate].
  unfold _parse_clef. destruct (CLEF_MAP _); discriminate.
Qed.

Lemma step_keeps_beats (e : ParsedElement) (st st' : builder)
  (self self' : CommandExecutor) :
  is_time_command e = false ->
  step e st self = (Returned st', self') ->
  beats_per_measure st' = beats_per_measure st.
Proof.
  intros Ht Hs. destruct e as [n|r|c|b|c].
  4: { apply step_barline_spec in Hs. tauto. }
  4: { unfold step, build_step in Hs.
       destruct (_create_command_element _ _ c) as [x|] eqn:E;
         [|inversion Hs; reflexivity].
       destruct (truth x); [|inversion Hs; reflexivity].
       destruct x as [| | | |ts| |]; cbn [bind] in Hs; try (inversion Hs; reflexivity).
       apply time_signature_from_time_command in E. congruence. }
  all: match type of Hs with step ?e _ _ = _ =>
         destruct (step_music_spec e st st' self self' eq_refl Hs)
           as [[_ ->] | (_ & x & Hx & _ & ->)]
       end; try reflexivity; apply place_spec; exact Hx.
Qed.

Lemma loop_keeps_beats (elems : list ParsedElement) :
  forall st st' self self',
    existsb is_time_command elems = false ->
    loop elems st self = (Returned st', self') ->
    beats_per_measure st' = beats_per_measure st.
Proof.
  induction elems as [|e elems IH]; intros st st' self self' Hno H.
  - inversion H. reflexivity.
  - cbn [existsb] in Hno. apply orb_false_iff in Hno. destruct Hno as [He Hes].
    rewrite loop_cons in H.
    destruct (step e st self) as [[st1| |] self1] eqn:E; try discriminate.
    rewrite (IH st1 st' self1 self' Hes H).
    eapply step_keeps_beats; eassumption.
Qed.

Lemma capacity_without_time_command (before : list ParsedElement) (self : CommandExecutor) :
  existsb is_time_command before = false ->
  capacity_in_force before self = 4%Q.
Proof.
  intros Hno. unfold capacity_in_force.
  destruct (loop before initial_builder self) as [[st| |] s1] eqn:E; try reflexivity.
  apply (loop_keeps_beats before _ _ _ _ Hno E).
Qed.

(** With no [time] command among the elements and no event longer than
    4 beats, every measure of the part holds at most 4 beats. *)
Lemma measure_within_four_beats (elems : list ParsedElement) (title : string)
  (self self' : CommandExecutor) (score : Score) :
  create elems title self = (Returned score, self') ->
  existsb is_time_command elems = false ->
  Forall (fun e => (elem_length e <= 4)%Q) elems ->
  forall p m, In p (parts score) -> In m (measures p) ->
    (measure_duration m <= 4)%Q.
Proof.
  intros H Hno Hlen p m Hp Hm.
  assert (Hcap : forall before e after, elems = before ++ e :: after ->
                   capacity_in_force before self = 4%Q).
  { intros before e after ->. apply capacity_without_time_command.
    rewrite existsb_app in Hno. apply orb_false_iff in Hno. tauto. }
  assert (Hfit : events_fit elems self).
  { intros before e after He _. rewrite (Hcap before e after He).
    rewrite Forall_forall in Hlen. apply Hlen. rewrite He.
    apply in_or_app. right. left. reflexivity. }
  destruct (build_within_capacity elems title self self' score H Hfit p m Hp Hm)
    as [He | (before & e & after & st & self1 & Hel & _ & _ & _ & Hle)].
  - unfold measure_duration. rewrite He. cbn. discriminate.
  - rewrite (Hcap before e after Hel) in Hle. exact Hle.
Qed.

(** C1. In a structural build that returns, when no single event is
    longer than the capacity in force when it is placed, every measure of
    the part has no event (its sum is 0), or its events are those of the
    current measure right after one of the elements was placed, and then
    the sum of their durations is at most the [beats_per_measure] that was
    in force for that element. Whether it fits or not, an element that is
    placed gives one event of its whole length, put into one measure: the
    current one, or a new one begun after the current one was closed; so
    an event longer than a whole measure is alone in its measure, not
    split. *)
Theorem measure_within_capacity :
  (forall (elems : list ParsedElement) (title : string)
          (self self' : CommandExecutor) (score : Score),
      create elems title self = (Returned score, self') ->
      events_fit elems self ->
      forall p m, In p (parts score) -> In m (measures p) ->
        events m = []
        \/ exists before e after st self1,
            elems = before ++ e :: after
            /\ is_music e = true
            /\ loop (before ++ [e]) initial_builder self = (Returned st, self1)
            /\ events m = events (current_measure st)
            /\ (measure_duration m <= capacity_in_force before self)%Q)
  /\ (forall (e : ParsedElement) (st st' : builder) (self self' : CommandExecutor),
        is_placed e = true ->
        step e st self = (Returned st', self') ->
        exists x,
          is_event x = true
          /\ quarterLength x = elem_length e
          /\ ((measures (part st') = measures (part st)
               /\ events (current_measure st') = events (current_measure st) ++ [x])
              \/ (measures (part st') = measures (part st) ++ [current_measure st]
                  /\ events (current_measure st') = [x]))).
Proof.
  split.
  - intros elems title self self' score H Hfit p m Hp Hm.
    change (within_capacity elems self (events m)).
    eapply build_within_capacity; eassumption.
  - intros e st st' self self' Hpl Hs.
    assert (Hmus : is_music e = true).
    { destruct e as [| |c| |]; try reflexivity; discriminate. }
    destruct (step_music_spec e st st' self self' Hmus Hs)
      as [[Hno _] | (_ & x & Hx & Hlen & ->)]; [congruence|].
    exists x. split; [exact Hx|]. split; [exact Hlen|].
    destruct (place_spec st x Hx) as (_ & [(_ & Hm & He & _) | (_ & Hm & He & _)]);
      [left | right]; auto.
Qed.

(** ** Elements without effect, and builds that raise *)

Lemma step_no_effect (e : ParsedElement) (st : builder) (self : CommandExecutor) :
  no_effect e = true -> step e st self = (Returned st, self).
Proof.
  unfold step, build_step. destruct e as [n|r|c|b|c]; try discriminate; cbn [no_effect].
  - intros H. unfold _create_music_element, _create_chord.
    destruct (notes c); [reflexivity | discriminate].
  - destruct (_create_command_element _ _ c); [discriminate | reflexivity].
Qed.

Lemma unknown_command_no_effect (c : ParsedCommand) :
  ~ In (PyStr.lower (command c)) command_keywords -> no_effect (Command c) = true.
Proof.
  intros H. cbn [no_effect]. unfold _create_command_element.
  destruct (String.eqb _ "key") eqn:E1;
    [apply String.eqb_eq in E1; exfalso; apply H; rewrite E1; cbn; tauto|].
  destruct (String.eqb _ "time") eqn:E2;
    [apply String.eqb_eq in E2; exfalso; apply H; rewrite E2; cbn; tauto|].
  destruct (String.eqb _ "tempo") eqn:E3;
    [apply String.eqb_eq in E3; exfalso; apply H; rewrite E3; cbn; tauto|].
  destruct (String.eqb _ "clef") eqn:E4;
    [apply String.eqb_eq in E4; exfalso; apply H; rewrite E4; cbn; tauto|].
  reflexivity.
Qed.

(** X10. The commands that are not understood (a name that is not one of
    the four, a clef that is not known, a tempo without a digit, a key or a
    meter that music21 refuses) and the chords without notes leave no trace:
    the build gives the same result, and leaves the same executor, with or
    without them. *)
Theorem build_without_ignored_elements :
  (forall (elems : list ParsedElement) (title : string) (self : CommandExecutor),
      create (filter (fun e => negb (no_effect e)) elems) title self
      = create elems title self)
  /\ (forall c : ParsedCommand,
         ~ In (PyStr.lower (command c)) command_keywords -> no_effect (Command c) = true).
Proof.
  split; [|exact unknown_command_no_effect].
  intros elems title self. unfold create, create_score_from_elements. fold loop.
  enough (H : forall st s, loop (filter (fun e => negb (no_effect e)) elems) st s
                           = loop elems st s) by now rewrite H.
  induction elems as [|e elems IH]; intros st s; [reflexivity|].
  cbn [filter]. destruct (no_effect e) eqn:E; cbn [negb].
  - rewrite (loop_cons e), (step_no_effect e st s E). apply IH.
  - rewrite !loop_cons. destruct (step e st s) as [[st'| |] s']; try reflexivity. apply IH.
Qed.

Lemma step_acceptable (e : ParsedElement) (st : builder) (self : CommandExecutor) :
  acceptable self e = true -> exists st', step e st self = (Returned st', self).
Proof.
  unfold step, build_step. destruct e as [n|r|c|b|c]; cbn [acceptable]; intros H.
  - apply andb_true_iff in H. destruct H as [H Hs].
    apply andb_true_iff in H. destruct H as [Hp Ht].
    apply negb_true_iff in Ht, Hs.
    assert (Hn : _pending_tie self = None)
      by (destruct (_pending_tie self); [discriminate | reflexivity]).
    unfold _create_music_element. rewrite (_create_note_plain n self Hp Ht Hn).
    cbn [bind truth]. eauto.
  - cbn [_create_music_element bind truth]. eauto.
  - unfold _create_music_element, _create_chord. rewrite H. cbn [bind].
    destruct (truth _); eauto.
  - eauto.
  - destruct (_create_command_element _ _ c) as [x|]; [|eauto].
    destruct (truth x); [|eauto].
    destruct x as [| | | |ts| |]; cbn [bind]; eauto.
    unfold beats_of. destruct (beatDuration ts) as [d|]; [|discriminate].
    apply negb_true_iff in H. rewrite H. cbn [bind]. eauto.
Qed.

Lemma step_not_acceptable (e : ParsedElement) (st : builder) (self : CommandExecutor) :
  acceptable self e = false ->
  exists x, step e st self = (Raised x, self)
            /\ (x = Music21Exception \/ x = AttributeError \/ x = ZeroDivisionError).
Proof.
  unfold step, build_step. destruct e as [n|r|c|b|c]; cbn [acceptable]; intros H;
    try discriminate.
  - unfold _create_music_element, _create_note.
    destruct (Pitch_accepts (pitch n)); cbn [negb andb bind] in *; [|eauto].
    destruct (tied n); cbn [negb andb bind] in *; [eauto|].
    destruct (_pending_tie self); cbn [bind] in *; [eauto | discriminate].
  - unfold _create_music_element, _create_chord. rewrite H. cbn [bind]. eauto.
  - destruct (_create_command_element _ _ c) as [x|]; [|discriminate].
    destruct x as [| | | |ts| |]; try discriminate.
    cbn [truth]. unfold beats_of. destruct (beatDuration ts) as [d|]; cbn [bind];
      [|eauto].
    apply negb_false_iff in H. rewrite H. cbn [bind]. eauto 6.
Qed.

Lemma loop_acceptable (elems : list ParsedElement) (self : CommandExecutor) :
  forall st,
    (forallb (acceptable self) elems = true ->
     exists st', loop elems st self = (Returned st', self))
    /\ (forallb (acceptable self) elems = false ->
        exists x, loop elems st self = (Raised x, self)
                  /\ (x = Music21Exception \/ x = AttributeError
                      \/ x = ZeroDivisionError)).
Proof.
  induction elems as [|e elems IH]; intros st.
  - split; [intros _; exists st; reflexivity | discriminate].
  - cbn [forallb]. rewrite loop_cons. destruct (acceptable self e) eqn:E; cbn [andb].
    + destruct (step_acceptable e st self E) as (st' & ->). apply IH.
    + split; [discriminate|]. intros _.
      destruct (step_not_acceptable e st self E) as (x & -> & Hx). eauto.
Qed.

(** X11. A structural build returns a score exactly when nothing raises
    at any element: music21 accepts the pitch of every note and the
    pitches of every chord, it gives a beat length, not 0, for every time
    signature it accepts, no note is tied, and no tie is pending in the
    executor when there is a note. Otherwise the build raises
    [Music21Exception], [AttributeError] or [ZeroDivisionError] and no
    score is made. The executor is left as it was in both cases. *)
Theorem build_returns_or_raises :
  forall (elems : list ParsedElement) (title : string) (self : CommandExecutor),
    (forallb (acceptable self) elems = true ->
     exists score, create elems title self = (Returned score, self))
    /\ (forallb (acceptable self) elems = false ->
        exists x, create elems title self = (Raised x, self)
                  /\ (x = Music21Exception \/ x = AttributeError
                      \/ x = ZeroDivisionError)).
Proof.
  intros elems title self. unfold create, create_score_from_elements. fold loop.
  destruct (loop_acceptable elems self initial_builder) as [Hok Hbad].
  split; intros H.
  - destruct (Hok H) as (st & ->). cbn [bind]. eauto.
  - destruct (Hbad H) as (x & -> & Hx). cbn [bind]. eauto.
Qed.

(** ** The numbers of the measures *)

Lemma map_set_last_rightBarline {A : Type} (f : Measure -> A) (p : Part) (style : string) :
  (forall m s, f (mkMeasure (number m) (elements m) s) = f m) ->
  map f (measures (set_last_rightBarline p style)) = map f (measures p).
Proof.
  intros Hf. unfold set_last_rightBarline.
  destruct (rev (measures p)) as [|m before] eqn:E; [reflexivity|].
  destruct (at_offset_0 before); [reflexivity|].
  cbn [measures]. apply (f_equal (@rev Measure)) in E. rewrite rev_involutive in E.
  rewrite E. cbn [rev]. rewrite !map_app. cbn [map]. now rewrite Hf.
Qed.

Lemma close_measure_numbered (st : builder) : numbered st -> numbered (close_measure st).
Proof.
  intros [Hp Hc]. unfold numbered, close_measure, part_append.
  cbn [part current_measure measures new_measure number].
  rewrite map_app, length_app, Hp. cbn [map List.length]. rewrite !Hc.
  split; [|lia]. rewrite !Nat.add_1_r, seq_S. reflexivity.
Qed.

Lemma place_numbered (st : builder) (x : M21Element) : numbered st -> numbered (place st x).
Proof.
  intros H. unfold place. destruct (Qle_bool _ _).
  - exact H.
  - apply close_measure_numbered in H. exact H.
Qed.

Lemma step_numbered (e : ParsedElement) (st st' : builder) (self self' : CommandExecutor) :
  step e st self = (Returned st', self') -> numbered st -> numbered st'.
Proof.
  intros Hs H. destruct e as [n|r|c|b|c].
  4: { unfold step, build_step in Hs. inversion Hs. clear Hs.
       apply close_measure_numbered in H. destruct H as [Hp Hc].
       unfold numbered. cbn [part current_measure].
       assert (Hn : forall p style,
                  map number (measures (set_last_rightBarline p style))
                  = map number (measures p))
         by (intros; now apply map_set_last_rightBarline).
       assert (Hl : forall p style,
                  List.length (measures (set_last_rightBarline p style))
                  = List.length (measures p)).
       { intros p style. rewrite <- (length_map number), Hn. apply length_map. }
       destruct (String.eqb (style b) "double"); [|destruct (String.eqb (style b) "final")];
         rewrite ?Hn, ?Hl; auto. }
  4: { unfold step, build_step in Hs.
       destruct (_create_command_element _ _ c) as [x|]; [|now inversion Hs; subst].
       destruct (truth x); [|now inversion Hs; subst].
       destruct (match x with ETimeSignature ts => beats_of ts | _ => _ end) as [beats| |];
         cbn [bind] in Hs; inversion Hs. exact H. }
  all: match type of Hs with step ?e _ _ = _ =>
         destruct (step_music_spec e st st' self self' eq_refl Hs)
           as [[_ ->] | (_ & x & _ & _ & ->)]
       end; [exact H | now apply place_numbered ..].
Qed.

(** X12. The score of a structural build has one part, and its measures
    are numbered 1, 2, 3 and so on, in their order, whether a measure was
    closed by a barline or by an event that did not fit. *)
Theorem measures_numbered_from_one :
  forall (elems : list ParsedElement) (title : string)
         (self self' : CommandExecutor) (score : Score),
    create elems title self = (Returned score, self') ->
    exists p, parts score = [p]
              /\ map number (measures p) = seq 1 (List.length (measures p)).
Proof.
  intros elems title self self' score H.
  unfold create, create_score_from_elements in H. fold loop in H.
  destruct (loop elems initial_builder self) as [[st| |] s1] eqn:E;
    cbn [bind] in H; try discriminate.
  inversion H; subst. clear H.
  assert (Hn : numbered st).
  { assert (Hgen : forall es st0 s0 st1 s2,
               loop es st0 s0 = (Returned st1, s2) -> numbered st0 -> numbered st1).
    { induction es as [|e es IH]; intros st0 s0 st1 s2 Hl H0.
      - inversion Hl; now subst.
      - rewrite loop_cons in Hl.
        destruct (step e st0 s0) as [[st'| |] s'] eqn:Es; try discriminate.
        eapply IH; [exact Hl|]. eapply step_numbered; eassumption. }
    eapply Hgen; [exact E|]. split; reflexivity. }
  eexists. split; [reflexivity|].
  unfold add_final_measure. destruct (_ || _); [|exact (proj1 Hn)].
  apply close_measure_numbered in Hn. exact (proj1 Hn).
Qed.

(** ** The onsets of the elements of a measure *)

Lemma quarter_length_positive (d : Duration) (dot : bool) :
  (0 < quarter_length d dot)%Q.
Proof. destruct d, dot; reflexivity. Qed.

Lemma elem_length_nonneg (e : ParsedElement) : (0 <= elem_length e)%Q.
Proof.
  destruct e; cbn [elem_length]; try apply Qlt_le_weak, quarter_length_positive.
  all: apply Qle_refl.
Qed.

Lemma not_event_no_length (x : M21Element) :
  is_event x = false -> quarterLength x = 0%Q.
Proof. destruct x; try discriminate; reflexivity. Qed.

Lemma span_snoc (l : list (Q * M21Element)) (oe : Q * M21Element) :
  (span (l ++ [oe]) == span l + quarterLength (snd oe))%Q.
Proof.
  induction l as [|x l IH]; cbn [span app fold_right].
  - ring.
  - fold (span (l ++ [oe])). fold (span l). rewrite IH. ring.
Qed.

Lemma onsets_from_snoc (l : list (Q * M21Element)) :
  forall (t o : Q) (e : M21Element),
    onsets_from t l -> (o == t + span l)%Q -> onsets_from t (l ++ [(o, e)]).
Proof.
  induction l as [|[o' e'] l IH]; intros t o e H Ho; cbn [app onsets_from].
  - split; [|exact I]. rewrite Ho. cbn. ring.
  - destruct H as [H1 H2]. split; [exact H1|].
    apply IH; [exact H2|]. rewrite Ho. cbn [span fold_right snd]. fold (span l). ring.
Qed.

Lemma highestTime_append (m : Measure) (e : M21Element) :
  (0 <= quarterLength e)%Q ->
  (highestTime (append m e) == highestTime m + quarterLength e)%Q.
Proof.
  intros Hq. unfold highestTime at 1, append. cbn [elements].
  rewrite fold_left_app. cbn [fold_left fst snd]. fold (highestTime m).
  unfold qmax.
  assert (Hle : (highestTime m <= qadd (highestTime m) (quarterLength e))%Q).
  { rewrite qadd_correct. rewrite <- (Qplus_0_r (highestTime m)) at 1.
    apply Qplus_le_r. exact Hq. }
  apply Qle_bool_iff in Hle. rewrite Hle. apply qadd_correct.
Qed.

Lemma append_laid_out (m : Measure) (e : M21Element) :
  (0 <= quarterLength e)%Q -> laid_out m -> laid_out (append m e).
Proof.
  intros Hq [Ho Hh]. split.
  - cbn [append elements]. apply onsets_from_snoc; [exact Ho|]. rewrite Hh. ring.
  - rewrite (highestTime_append m e Hq). cbn [append elements].
    rewrite span_snoc. cbn [snd]. rewrite Hh. reflexivity.
Qed.

Lemma new_measure_laid_out (n : nat) : laid_out (new_measure n).
Proof. split; [exact I | reflexivity]. Qed.

Lemma close_measure_aligned (st : builder) : aligned st -> aligned (close_measure st).
Proof.
  intros (Hp & Hc & Ho). unfold aligned, close_measure, part_append.
  cbn [part current_measure measure_offset measures].
  split; [|split; [apply new_measure_laid_out | reflexivity]].
  rewrite map_app. apply Forall_app. split; [exact Hp|].
  constructor; [exact (proj1 Hc) | constructor].
Qed.

Lemma place_aligned (st : builder) (x : M21Element) :
  (0 <= quarterLength x)%Q -> aligned st -> aligned (place st x).
Proof.
  intros Hq H. unfold place.
  assert (Hgen : forall s, aligned s ->
             aligned (mkBuilder (part s) (append (current_measure s) x)
                        (qadd (measure_offset s) (quarterLength x))
                        (beats_per_measure s))).
  { intros s (Hp & Hc & Ho). split; [exact Hp|].
    split; [now apply append_laid_out|].
    cbn [measure_offset current_measure].
    rewrite qadd_correct, (highestTime_append _ _ Hq), Ho. reflexivity. }
  destruct (Qle_bool _ _); apply Hgen; [exact H | now apply close_measure_aligned].
Qed.

Lemma step_aligned (e : ParsedElement) (st st' : builder) (self self' : CommandExecutor) :
  step e st self = (Returned st', self') -> aligned st -> aligned st'.
Proof.
  intros Hs H. destruct e as [n|r|c|b|c].
  4: { unfold step, build_step in Hs. inversion Hs. clear Hs.
       apply close_measure_aligned in H. destruct H as (Hp & Hc & Ho).
       unfold aligned. cbn [part current_measure measure_offset].
       split; [|split; assumption].
       destruct (String.eqb (style b) "double"); [|destruct (String.eqb (style b) "final")];
         rewrite ?map_set_last_rightBarline by reflexivity; exact Hp. }
  4: { unfold step, build_step in Hs.
       destruct (_create_command_element _ _ c) as [x|] eqn:E;
         [|now inversion Hs; subst].
       apply command_element_not_event, not_event_no_length in E.
       destruct (truth x); [|now inversion Hs; subst].
       destruct (match x with ETimeSignature ts => beats_of ts | _ => _ end) as [beats| |];
         cbn [bind] in Hs; inversion Hs.
       destruct H as (Hp & Hc & Ho). split; [exact Hp|].
       assert (Hq : (0 <= quarterLength x)%Q) by (rewrite E; apply Qle_refl).
       split; [now apply append_laid_out|].
       cbn [measure_offset current_measure].
       rewrite (highestTime_append _ _ Hq), E, Ho. ring. }
  all: match type of Hs with step ?e _ _ = _ =>
         destruct (step_music_spec e st st' self self' eq_refl Hs)
           as [[_ ->] | (_ & x & _ & Hlen & ->)];
         [exact H | apply place_aligned; [rewrite Hlen; apply elem_length_nonneg | exact H]]
       end.
Qed.

Lemma loop_aligned (elems : list ParsedElement) :
  forall st st' self self',
    loop elems st self = (Returned st', self') -> aligned st -> aligned st'.
Proof.
  induction elems as [|e elems IH]; intros st st' self self' Hl H.
  - inversion Hl; now subst.
  - rewrite loop_cons in Hl.
    destruct (step e st self) as [[st1| |] s1] eqn:Es; try discriminate.
    eapply IH; [exact Hl|]. eapply step_aligned; eassumption.
Qed.

Lemma initial_builder_aligned : aligned initial_builder.
Proof. split; [constructor | split; [apply new_measure_laid_out | reflexivity]]. Qed.

(** X13. In every measure of a structural build the elements follow one
    another without a gap or an overlap: the first begins at 0 and each
    begins where the one before it ends (a signature or a marking has no
    length). During the build, the offset the builder keeps is the end of
    the current measure, where music21 appends. *)
Theorem elements_follow_one_another :
  (forall (elems : list ParsedElement) (title : string)
          (self self' : CommandExecutor) (score : Score),
      create elems title self = (Returned score, self') ->
      forall p m, In p (parts score) -> In m (measures p) ->
        onsets_from 0 (elements m))
  /\ (forall (elems : list ParsedElement) (st : builder) (self self' : CommandExecutor),
         loop elems initial_builder self = (Returned st, self') ->
         (measure_offset st == highestTime (current_measure st))%Q).
Proof.
  split.
  - intros elems title self self' score H p m Hp Hm.
    unfold create, create_score_from_elements in H. fold loop in H.
    destruct (loop elems initial_builder self) as [[st| |] s1] eqn:E;
      cbn [bind] in H; try discriminate.
    inversion H; subst. clear H.
    destruct (loop_aligned elems _ _ _ _ E initial_builder_aligned) as (Hpart & Hcur & _).
    destruct Hp as [<- | []].
    assert (Hin : In (elements m)
                     (map elements (measures (part st) ++ [current_measure st]))).
    { apply in_map. unfold add_final_measure in Hm.
      destruct (_ || _) in Hm; [exact Hm | apply in_or_app; left; exact Hm]. }
    rewrite map_app in Hin. apply in_app_or in Hin.
    destruct Hin as [Hin | [<- | []]]; [|exact (proj1 Hcur)].
    rewrite Forall_forall in Hpart. now apply Hpart.
  - intros elems st self self' H.
    exact (proj2 (proj2 (loop_aligned elems _ _ _ _ H initial_builder_aligned))).
Qed.

(** ** The notes of the score *)

Lemma step_note_inv (n : ParsedNote) (st st' : builder) (self self' : CommandExecutor) :
  step (Note n) st self = (Returned st', self') ->
  st' = place st (ENote (made_note n)) /\ self' = self
  /\ tied n = false /\ _pending_tie self = None.
Proof.
  unfold step, build_step, _create_music_element.
  destruct (_create_note Pitch_accepts Lyric_of n self) as [[x| |] s] eqn:E;
    cbn [bind truth]; intros H; inversion H.
  destruct (_create_note_returned n self s x E) as (_ & Ht & Hs & -> & ->). auto.
Qed.

Lemma not_event_no_note (x : M21Element) : is_event x = false -> element_notes x = [].
Proof. destruct x; try discriminate; reflexivity. Qed.

Lemma measure_notes_append (m : Measure) (x : M21Element) :
  measure_notes (append m x) = measure_notes m ++ element_notes x.
Proof.
  unfold measure_notes, append. cbn [elements]. rewrite flat_map_snoc. reflexivity.
Qed.

Lemma part_notes_set_last_rightBarline (p : Part) (style : string) :
  part_notes (set_last_rightBarline p style) = part_notes p.
Proof.
  unfold part_notes. rewrite !flat_map_concat_map.
  now rewrite map_set_last_rightBarline.
Qed.

Lemma close_measure_notes (st : builder) :
  builder_notes (close_measure st) = builder_notes st.
Proof.
  unfold builder_notes, close_measure, part_append, part_notes.
  cbn [part current_measure measures]. rewrite flat_map_snoc.
  cbn. now rewrite app_nil_r.
Qed.

(** An element that is not a note leaves the executor and the notes as
    they are. *)
Lemma step_other_notes (e : ParsedElement) (st st' : builder)
  (self self' : CommandExecutor) :
  (forall n, e <> Note n) ->
  step e st self = (Returned st', self') ->
  builder_notes st' = builder_notes st /\ self' = self.
Proof.
  intros Hn Hs. destruct e as [n|r|c|b|c].
  - now destruct (Hn n).
  - unfold step, build_step in Hs. cbn [_create_music_element bind truth] in Hs.
    inversion Hs. split; [|reflexivity].
    change (builder_notes (place st (ERest (_create_rest r))) = builder_notes st).
    rewrite place_notes. apply app_nil_r.
  - unfold step, build_step, _create_music_element, _create_chord in Hs.
    destruct (forallb _ (notes c)); cbn [bind] in Hs; [|discriminate].
    destruct (truth _) in Hs; inversion Hs; [|auto].
    split; [|reflexivity].
    match goal with |- builder_notes ?s = _ =>
      change s with (place st (EChord
        (mkM21Chord (map pitch (notes c))
           (quarter_length (chord_duration c) (chord_dotted c))
           (set_lyric Lyric_of (chord_lyric c)))))
    end.
    rewrite place_notes. apply app_nil_r.
  - unfold step, build_step in Hs. inversion Hs. split; [|reflexivity].
    unfold builder_notes. cbn [part current_measure].
    pose proof (close_measure_notes st) as Hc. unfold builder_notes in Hc.
    destruct (String.eqb (style b) "double"); [|destruct (String.eqb (style b) "final")];
      rewrite ?part_notes_set_last_rightBarline; exact Hc.
  - unfold step, build_step in Hs.
    destruct (_create_command_element _ _ c) as [x|] eqn:E;
      [|inversion Hs; auto].
    apply command_element_not_event, not_event_no_note in E.
    destruct (truth x); [|inversion Hs; auto].
    destruct (match x with ETimeSignature ts => beats_of ts | _ => _ end) as [beats| |];
      cbn [bind] in Hs; inversion Hs.
    split; [|reflexivity]. unfold builder_notes. cbn [part current_measure].
    now rewrite measure_notes_append, E, app_nil_r.
Qed.

Lemma loop_notes (elems : list ParsedElement) :
  forall st st' self self',
    loop elems st self = (Returned st', self') ->
    builder_notes st' = builder_notes st ++ map made_note (note_elements elems)
    /\ Forall (fun n => tied n = false) (note_elements elems)
    /\ (note_elements elems <> [] -> _pending_tie self = None).
Proof.
  induction elems as [|e elems IH]; intros st st' self self' H.
  - inversion H. cbn. rewrite app_nil_r. repeat split; [constructor | congruence].
  - rewrite loop_cons in H.
    destruct (step e st self) as [[st1| |] s1] eqn:Es; try discriminate.
    destruct (IH _ _ _ _ H) as (IH1 & IH2 & IH3). rewrite IH1.
    destruct e as [n|p|p|p|p].
    + destruct (step_note_inv n st st1 self s1 Es) as (-> & -> & Ht & Hs).
      rewrite place_notes. cbn [element_notes note_elements flat_map app map].
      fold (note_elements elems). rewrite <- app_assoc.
      repeat split; [constructor; assumption | auto].
    + destruct (step_other_notes (Rest p) st st1 self s1) as [-> ->];
        [intros ? ?; discriminate | exact Es | auto].
    + destruct (step_other_notes (Chord p) st st1 self s1) as [-> ->];
        [intros ? ?; discriminate | exact Es | auto].
    + destruct (step_other_notes (Barline p) st st1 self s1) as [-> ->];
        [intros ? ?; discriminate | exact Es | auto].
    + destruct (step_other_notes (Command p) st st1 self s1) as [-> ->];
        [intros ? ?; discriminate | exact Es | auto].
Qed.

Lemma stream_notes_nil (m : Measure) : stream_notes m = [] -> measure_notes m = [].
Proof.
  unfold stream_notes, measure_notes. induction (elements m) as [|[o e] l IH];
    [reflexivity|].
  cbn [filter flat_map snd]. destruct e; cbn [is_NotRest element_notes];
    try discriminate; exact IH.
Qed.

Lemma add_final_measure_notes (st : builder) :
  part_notes (add_final_measure st) = builder_notes st.
Proof.
  unfold add_final_measure, builder_notes.
  destruct (stream_notes (current_measure st)) eqn:En; cbn [is_nil negb orb].
  - rewrite (stream_notes_nil _ En), app_nil_r.
    destruct (negb _); [|reflexivity].
    unfold part_append, part_notes. cbn [measures]. rewrite flat_map_snoc.
    now rewrite (stream_notes_nil _ En), app_nil_r.
  - unfold part_append, part_notes. cbn [measures]. apply flat_map_snoc.
Qed.

Lemma create_notes (elems : list ParsedElement) (title : string)
  (self self' : CommandExecutor) (score : Score) :
  create elems title self = (Returned score, self') ->
  score_notes score = map made_note (note_elements elems)
  /\ Forall (fun n => tied n = false) (note_elements elems)
  /\ (note_elements elems <> [] -> _pending_tie self = None).
Proof.
  intros H. unfold create, create_score_from_elements in H. fold loop in H.
  destruct (loop elems initial_builder self) as [[st| |] s1] eqn:E;
    cbn [bind] in H; try discriminate.
  inversion H; subst. clear H.
  unfold score_notes. cbn [parts flat_map]. rewrite app_nil_r.
  rewrite add_final_measure_notes. apply (loop_notes elems _ _ _ _ E).
Qed.

(** X14. No note is lost and none is made up: the notes of the score of a
    structural build are, in order, the notes of the note elements, each
    with the pitch of its element, its whole length and, for its lyric,
    what music21 reads from the lyric of the element (an empty lyric is
    not set). *)
Theorem notes_of_the_score :
  forall (elems : list ParsedElement) (title : string)
         (self self' : CommandExecutor) (score : Score),
    create elems title self = (Returned score, self') ->
    map note_pitch (score_notes score) = map pitch (note_elements elems)
    /\ map note_quarterLength (score_notes score)
       = map (fun n => elem_length (Note n)) (note_elements elems)
    /\ map note_lyric (score_notes score)
       = map (fun n => set_lyric Lyric_of (lyric n)) (note_elements elems).
Proof.
  intros elems title self self' score H.
  rewrite (proj1 (create_notes elems title self self' score H)).
  rewrite !map_map. repeat split.
Qed.

(** X15. No tie reaches a score: when a structural build returns, no note
    element was tied, no tie was pending in the executor if there was a
    note element, no note of the score carries a tie, and the executor is
    as it was. *)
Theorem ties_of_the_score :
  forall (elems : list ParsedElement) (title : string)
         (self self' : CommandExecutor) (score : Score),
    create elems title self = (Returned score, self') ->
    self' = self
    /\ Forall (fun n => tied n = false) (note_elements elems)
    /\ (note_elements elems <> [] -> _pending_tie self = None)
    /\ Forall (fun n => note_tie n = None) (score_notes score).
Proof.
  intros elems title self self' score H.
  pose proof (create_self elems title self) as Hs. fold create in Hs.
  rewrite H in Hs. cbn [snd] in Hs.
  destruct (create_notes elems title self self' score H) as (Hn & Ht & Hp).
  repeat split; try assumption.
  rewrite Hn. apply Forall_map. apply Forall_forall. reflexivity.
Qed.

Lemma step_attribute_error (e : ParsedElement) (st : builder)
  (self self' : CommandExecutor) :
  step e st self = (Raised AttributeError, self') ->
  exists n, e = Note n /\ (tied n = true \/ _pending_tie self <> None).
Proof.
  unfold step, build_step. destruct e as [n|r|c|b|c].
  - intros H. exists n. split; [reflexivity|].
    unfold _create_music_element, _create_note in H.
    destruct (Pitch_accepts (pitch n)); cbn [negb bind] in H; [|discriminate].
    destruct (tied n); [now left|].
    destruct (_pending_tie self); [right; discriminate | discriminate].
  - discriminate.
  - unfold _create_music_element, _create_chord.
    destruct (forallb _ _); cbn [bind]; [|discriminate].
    destruct (truth _); discriminate.
  - discriminate.
  - destruct (_create_command_element _ _ c) as [x|]; [|discriminate].
    destruct (truth x); [|discriminate].
    destruct x as [| | | |ts| |]; cbn [bind]; try discriminate.
    unfold beats_of. destruct (beatDuration ts); [|discriminate].
    destruct (Qeq_bool _ _); discriminate.
Qed.

Lemma loop_attribute_error (elems : list ParsedElement) :
  forall st self self',
    loop elems st self = (Raised AttributeError, self') ->
    _pending_tie self <> None \/ Exists (fun n => tied n = true) (note_elements elems).
Proof.
  induction elems as [|e elems IH]; intros st self self' H; [discriminate|].
  rewrite loop_cons in H.
  pose proof (step_self e st self) as Hs.
  destruct (step e st self) as [[st1| |] s1] eqn:Es; cbn [snd] in Hs; subst s1.
  - destruct (IH _ _ _ H) as [Hp | Hx]; [now left|]. right.
    cbn [note_elements flat_map]. apply Exists_app. now right.
  - inversion H; subst.
    destruct (step_attribute_error _ _ _ _ Es) as (n & -> & [Ht | Hp]); [|now left].
    right. cbn [note_elements flat_map app]. now constructor.
  - discriminate.
Qed.

Lemma well_formed_untied (elems : list ParsedElement) :
  Forall well_formed elems -> Forall (fun n => tied n = false) (note_elements elems).
Proof.
  induction 1 as [|e elems He _ IH]; [constructor|].
  destruct e as [n| | | |]; cbn [note_elements flat_map app]; try exact IH.
  constructor; [exact (proj1 He) | exact IH].
Qed.

(** X16. From the text to the score: whatever the text, the build of the
    elements parsed from it by [execute_commands] does not stop at a tie,
    it does not raise [AttributeError]; and no note of the score that it
    builds carries a tie. *)
Theorem parsed_text_builds_no_tie :
  forall (text title : string),
    execute_commands Pitch_accepts Key_accepts TimeSignature_of Lyric_of
      (parsed_elements text) title <> Raised AttributeError
    /\ forall (score : Score),
        execute_commands Pitch_accepts Key_accepts TimeSignature_of Lyric_of
          (parsed_elements text) title = Returned score ->
        Forall (fun n => note_tie n = None) (score_notes score).
Proof.
  intros text title. unfold execute_commands. fold create.
  destruct (create (parsed_elements text) title new_executor) as [r s] eqn:E.
  cbn [fst]. split.
  - intros ->. unfold create, create_score_from_elements in E. fold loop in E.
    destruct (loop (parsed_elements text) initial_builder new_executor)
      as [[st| |] s1] eqn:El; cbn [bind] in E; try discriminate.
    inversion E; subst.
    destruct (loop_attribute_error _ _ _ _ El) as [Hp | Hx]; [now apply Hp|].
    assert (Hu : Forall (fun n => tied n = false) (note_elements (parsed_elements text))).
    { apply well_formed_untied. rewrite parsed_elements_lines. apply lines_well_formed. }
    apply Exists_exists in Hx. destruct Hx as (n & Hin & Ht).
    rewrite Forall_forall in Hu. specialize (Hu n Hin). congruence.
  - intros score ->.
    rewrite (proj1 (create_notes _ _ _ _ _ E)).
    apply Forall_map. apply Forall_forall. reflexivity.
Qed.

(** ** The barlines *)












(** ** The values of the commands *)

Lemma search_digits_skip (pre s : string) :
  no_digit pre = true -> Re.search_digits (pre ++ s) = Re.search_digits s.
Proof.
  induction pre as [|c pre IH]; [reflexivity|].
  cbn [no_digit String.append Re.search_digits].
  rewrite andb_true_iff, negb_true_iff. intros [Hc Hp]. now rewrite Hc, IH.
Qed.

Lemma digits_run_app (d post : string) :
  all_digits d = true -> no_digit_first post = true -> Re.digits_run (d ++ post) = d.
Proof.
  intros Hd Hp. induction d as [|c d IH].
  - destruct post as [|c r]; [reflexivity|].
    cbn in Hp. apply negb_true_iff in Hp.
    cbn [String.append Re.digits_run]. now rewrite Hp.
  - cbn [all_digits] in Hd. apply andb_true_iff in Hd. destruct Hd as [Hc Hd].
    cbn [String.append Re.digits_run]. now rewrite Hc, (IH Hd).
Qed.

Lemma digits_run_split (s : string) :
  exists post, s = (Re.digits_run s ++ post)%string
               /\ all_digits (Re.digits_run s) = true /\ no_digit_first post = true.
Proof.
  induction s as [|c s (post & E & Ha & Hp)].
  - exists "". repeat split.
  - cbn [Re.digits_run]. destruct (PyStr.isdigit c) eqn:Ec.
    + exists post. cbn [String.append all_digits]. rewrite Ec, Ha, <- E.
      repeat split. exact Hp.
    + exists (String c s). cbn [String.append all_digits no_digit_first]. rewrite Ec.
      repeat split.
Qed.

Lemma search_digits_none (v : string) :
  Re.search_digits v = None <-> no_digit v = true.
Proof.
  induction v as [|c v IH]; [split; reflexivity|].
  cbn [Re.search_digits no_digit]. destruct (PyStr.isdigit c); cbn [negb andb].
  - split; discriminate.
  - exact IH.
Qed.

Lemma search_digits_some (v group : string) :
  Re.search_digits v = Some group ->
  exists pre post,
    v = (pre ++ group ++ post)%string
    /\ no_digit pre = true /\ all_digits group = true /\ group <> ""
    /\ no_digit_first post = true.
Proof.
  induction v as [|c v IH]; [discriminate|].
  cbn [Re.search_digits]. destruct (PyStr.isdigit c) eqn:Ec.
  - intros H. inversion H. clear H.
    destruct (digits_run_split (String c v)) as (post & E & Ha & Hp).
    exists "", post. cbn [String.append no_digit]. repeat split; try assumption.
    cbn [Re.digits_run]. rewrite Ec. discriminate.
  - intros H. destruct (IH H) as (pre & post & -> & Hpre & Ha & Hne & Hp).
    exists (String c pre), post. cbn [String.append no_digit]. rewrite Ec, Hpre.
    repeat split; assumption.
Qed.

(** X18. The tempo is the number written by the first run of digits of
    the value: what comes before it and after it is not read. There is no
    tempo when the value has no digit, and when the run has more digits
    than [int] converts, which is 4300; and in no other case. *)
Theorem tempo_of_first_digits :
  (forall (pre digits post : string),
      no_digit pre = true -> all_digits digits = true -> digits <> "" ->
      no_digit_first post = true ->
      _parse_tempo (pre ++ digits ++ post)
      = if (String.length digits <=? int_max_str_digits)%nat
        then Some (EMetronomeMark (PyStr.digits_value 0 digits))
        else None)
  /\ (forall v : string, no_digit v = true -> _parse_tempo v = None)
  /\ (forall v : string,
         _parse_tempo v = None ->
         no_digit v = true
         \/ exists pre digits post,
             v = (pre ++ digits ++ post)%string
             /\ no_digit pre = true /\ all_digits digits = true
             /\ no_digit_first post = true
             /\ int_max_str_digits < String.length digits).
Proof.
  split; [|split].
  - intros pre digits post Hpre Hd Hne Hpost. unfold _parse_tempo.
    rewrite (search_digits_skip pre _ Hpre).
    destruct digits as [|c d]; [congruence|].
    pose proof Hd as Hd'. cbn [all_digits] in Hd'. apply andb_true_iff in Hd'.
    cbn [String.append Re.search_digits]. rewrite (proj1 Hd').
    change (String c (d ++ post)) with (String c d ++ post)%string.
    rewrite (digits_run_app _ _ Hd Hpost). unfold int_of_digits.
    destruct (String.length (String c d) <=? int_max_str_digits)%nat; reflexivity.
  - intros v Hv. unfold _parse_tempo.
    now rewrite (proj2 (search_digits_none v) Hv).
  - intros v. unfold _parse_tempo.
    destruct (Re.search_digits v) as [group|] eqn:E.
    + destruct (search_digits_some v group E) as (pre & post & -> & Hpre & Ha & _ & Hp).
      unfold int_of_digits.
      destruct (String.length group <=? int_max_str_digits)%nat eqn:El; [discriminate|].
      intros _. right. exists pre, group, post.
      apply Nat.leb_gt in El. repeat split; assumption.
    + intros _. left. now apply search_digits_none.
Qed.

Lemma rstrip_no_space (s : string) : no_space s = true -> PyStr.rstrip s = s.
Proof.
  induction s as [|c s IH]; [reflexivity|].
  cbn [no_space PyStr.rstrip]. rewrite andb_true_iff, negb_true_iff.
  intros [Hc Hs]. now rewrite Hc, (IH Hs).
Qed.

Lemma rstrip_before_word (a w : string) :
  no_space w = true -> w <> "" -> PyStr.rstrip (a ++ w) = (a ++ w)%string.
Proof.
  intros Hw Hne. induction a as [|c a IH]; [now apply rstrip_no_space|].
  cbn [String.append PyStr.rstrip]. rewrite IH.
  destruct (a ++ w)%string eqn:E.
  - destruct a; [cbn in E; congruence | discriminate].
  - cbn [PyStr.is_empty]. now rewrite andb_false_r.
Qed.

Lemma split_ws_aux_word (w : string) :
  no_space w = true ->
  forall cur s, PyStr.split_ws_aux cur (w ++ s) = PyStr.split_ws_aux (cur ++ w) s.
Proof.
  induction w as [|c w IH]; intros Hw cur s.
  - now rewrite append_empty_r.
  - cbn [no_space] in Hw. apply andb_true_iff in Hw. destruct Hw as [Hc Hw].
    apply negb_true_iff in Hc.
    cbn [String.append PyStr.split_ws_aux]. rewrite Hc, (IH Hw).
    fold (push cur c). now rewrite push_append.
Qed.

Lemma split_ws_two_words (t m : string) :
  no_space t = true -> t <> "" -> no_space m = true -> m <> "" ->
  PyStr.split_ws (t ++ String " " m) = [t; m].
Proof.
  intros Ht Hte Hm Hme. unfold PyStr.split_ws.
  rewrite (split_ws_aux_word t Ht). cbn [String.append PyStr.split_ws_aux].
  change (PyStr.isspace " ") with true. cbv iota.
  destruct t as [|c t]; [congruence|]. cbn [PyStr.is_empty].
  rewrite <- (append_empty_r m) at 1. rewrite (split_ws_aux_word m Hm).
  cbn [String.append PyStr.split_ws_aux].
  destruct m; [congruence | reflexivity].
Qed.

Lemma strip_two_words (c : ascii) (t m : string) :
  PyStr.isspace c = false -> no_space m = true -> m <> "" ->
  PyStr.strip (String c t ++ String " " m) = (String c t ++ String " " m)%string.
Proof.
  intros Hc Hm Hme. unfold PyStr.strip.
  replace (PyStr.lstrip (String c t ++ String " " m))
    with (String c t ++ String " " m)%string
    by (cbn [String.append PyStr.lstrip]; now rewrite Hc).
  rewrite <- (push_append (String c t) " " m).
  apply (rstrip_before_word _ m Hm Hme).
Qed.

Lemma mode_word_read (m mode : string) :
  In (m, mode) mode_words ->
  (if mem m ["major"; "maj"; "m"] then "major"
   else if mem m ["minor"; "min"] then "minor" else m) = mode.
Proof.
  unfold mode_words. cbn [In].
  intros [H|[H|[H|[H|[H|[]]]]]]; inversion H; reflexivity.
Qed.

(** X19. A key value of two words, a tonic and a mode word in any case:
    [major], [maj] and [m] stand for major, [minor] and [min] for minor.
    When the second character of the tonic is [#], [b], [B] or [-], the
    tonic is cut after it and a flat is written [-]; a tonic of one
    character is taken as it is. music21 is asked for the key of that
    tonic and mode, and, if it refuses, for the key of the whole value. *)
Theorem key_signature_words :
  forall (letter : ascii) (m mode : string),
    PyStr.isspace letter = false -> no_space m = true -> m <> "" ->
    In (PyStr.lower m, mode) mode_words ->
    (forall (a a' : ascii) (more : string),
        In (a, a') accidentals -> no_space more = true ->
        _parse_key_signature Key_accepts (String letter (String a more) ++ String " " m)
        = key_or_direct (String letter (String a' "")) mode
            (String letter (String a more) ++ String " " m))
    /\ _parse_key_signature Key_accepts (String letter "" ++ String " " m)
       = key_or_direct (String letter "") mode (String letter "" ++ String " " m).
Proof.
  intros letter m mode Hl Hm Hme Hmode. split.
  - intros a a' more Ha Hmore. unfold _parse_key_signature.
    rewrite (strip_two_words letter (String a more) m Hl Hm Hme).
    assert (Has : PyStr.isspace a = false).
    { unfold accidentals in Ha. cbn [In] in Ha.
      destruct Ha as [H|[H|[H|[H|[]]]]]; inversion H; reflexivity. }
    rewrite split_ws_two_words; try assumption; try discriminate.
    2: { cbn [no_space]. now rewrite Hl, Has, Hmore. }
    cbn [PyStr.char_at String.get]. rewrite (mode_word_read _ _ Hmode).
    unfold key_or_direct, accidentals in *. cbn [In] in Ha.
    destruct Ha as [H|[H|[H|[H|[]]]]]; inversion H; subst a a';
      repeat match goal with
        | |- context [PyStr.lower_char ?x] =>
            let v := eval vm_compute in (PyStr.lower_char x) in
            change (PyStr.lower_char x) with v
        | |- context [Ascii.eqb ?x ?y] =>
            let v := eval vm_compute in (Ascii.eqb x y) in
            change (Ascii.eqb x y) with v
        end;
      cbv iota; destruct (Key_accepts _ (Some mode)); reflexivity.
  - unfold _parse_key_signature.
    rewrite (strip_two_words letter "" m Hl Hm Hme).
    rewrite split_ws_two_words; try assumption; try discriminate.
    2: { cbn [no_space]. now rewrite Hl. }
    cbn [PyStr.char_at String.get]. rewrite (mode_word_read _ _ Hmode).
    unfold key_or_direct. destruct (Key_accepts _ (Some mode)); reflexivity.
Qed.

(** ** The capacity of a measure *)

(** X22. The capacity in force is 4 as long as no [time] command was met.
    After a [time] command that music21 reads as a signature, it is the
    beat count of the signature times 4 over the length of its beat, until
    the next [time] command: the signature changes the capacity of the
    measure it is put in, which is not closed. *)
Theorem capacity_of_last_time_command :
  (forall (before : list ParsedElement) (self : CommandExecutor),
      existsb is_time_command before = false ->
      capacity_in_force before self = 4%Q)
  /\ (forall (before after : list ParsedElement) (c : ParsedCommand)
             (ts : TimeSignature) (d : Q)
             (self self' : CommandExecutor) (st : builder),
         loop (before ++ Command c :: after) initial_builder self = (Returned st, self') ->
         _create_command_element Key_accepts TimeSignature_of c = Some (ETimeSignature ts) ->
         beatDuration ts = Some d ->
         existsb is_time_command after = false ->
         (capacity_in_force (before ++ Command c :: after) self
          == inject_Z (beatCount ts) * (4 / d))%Q
         /\ exists st0 st1 self0,
             loop before initial_builder self = (Returned st0, self0)
             /\ step (Command c) st0 self0 = (Returned st1, self0)
             /\ measures (part st1) = measures (part st0)
             /\ measure_offset st1 = measure_offset st0
             /\ current_measure st1 = append (current_measure st0) (ETimeSignature ts)).
Proof.
  split; [exact capacity_without_time_command|].
  intros before after c ts d self self' st Hl Hc Hd Hafter.
  unfold capacity_in_force. rewrite Hl.
  rewrite loop_app in Hl.
  destruct (loop before initial_builder self) as [[st0| |] self0] eqn:E0;
    try discriminate.
  rewrite loop_cons in Hl.
  destruct (step (Command c) st0 self0) as [[st1| |] self1] eqn:E1; try discriminate.
  rewrite (loop_keeps_beats after _ _ _ _ Hafter Hl).
  destruct (step_command_spec c st0 st1 self0 self1 E1) as (Hm & _ & Ho).
  pose proof E1 as Hs.
  unfold step, build_step in E1. rewrite Hc in E1. cbn [truth] in E1.
  unfold beats_of in E1. rewrite Hd in E1.
  destruct (Qeq_bool d 0); cbn [bind] in E1; [discriminate|].
  injection E1 as Hst Hself. subst self1. split.
  - rewrite <- Hst. cbn [beats_per_measure].
    unfold qmul, qdiv. rewrite !Qred_correct. reflexivity.
  - exists st0, st1, self0. repeat split; try assumption.
    rewrite <- Hst. reflexivity.
Qed.

End Facts.

(** ** The theorems at concrete inputs *)

Lemma five_quarters_witness :
  Forall (fun n => duration n = QUARTER /\ dotted n = false /\ tied n = false
                   /\ Sample.Pitch_accepts (pitch n) = true)
    (map (fun p => mkParsedNote p QUARTER false None false false)
         ["C4"; "D4"; "E4"; "F4"; "G4"])
  /\ _pending_tie new_executor = None
  /\ exists (e1 e2 e3 e4 e5 : M21Note),
      Sample.create_score_from_elements
        (map Sample.quarter ["C4"; "D4"; "E4"; "F4"; "G4"]) "five" new_executor
      = (Returned (mkScore "five"
           [mkPart "Part 1" TrebleClef
              [mkMeasure 1 [(0%Q, ENote e1); (1%Q, ENote e2);
                            (2%Q, ENote e3); (3%Q, ENote e4)] None;
               mkMeasure 2 [(0%Q, ENote e5)] None]]),
         new_executor)
      /\ map note_pitch [e1; e2; e3; e4; e5] = ["C4"; "D4"; "E4"; "F4"; "G4"]
      /\ map note_quarterLength [e1; e2; e3; e4; e5] = [1; 1; 1; 1; 1]%Q
      /\ map note_tie [e1; e2; e3; e4; e5] = [None; None; None; None; None].
Proof.
  assert (H : Forall (fun n => duration n = QUARTER /\ dotted n = false /\ tied n = false
                               /\ Sample.Pitch_accepts (pitch n) = true)
                (map (fun p => mkParsedNote p QUARTER false None false false)
                     ["C4"; "D4"; "E4"; "F4"; "G4"]))
    by (repeat constructor).
  split; [exact H|]. split; [reflexivity|].
  exact (five_quarters_two_measures Sample.Pitch_accepts Sample.Key_accepts
           Sample.TimeSignature_of Sample.Lyric_of _ _ _ _ _ "five" new_executor
           H eq_refl).
Defined.

Lemma measure_within_capacity_witness :
  events_fit Sample.Pitch_accepts Sample.Key_accepts Sample.TimeSignature_of
    Sample.Lyric_of Examples.with_meter new_executor
  /\ (events Examples.with_meter_measure = []
      \/ exists before e after st self1,
          Examples.with_meter = before ++ e :: after
          /\ is_music e = true
          /\ build_loop Sample.Pitch_accepts Sample.Key_accepts Sample.TimeSignature_of
               Sample.Lyric_of (before ++ [e]) initial_builder new_executor
             = (Returned st, self1)
          /\ events Examples.with_meter_measure = events (current_measure st)
          /\ (measure_duration Examples.with_meter_measure
              <= capacity_in_force Sample.Pitch_accepts Sample.Key_accepts
                   Sample.TimeSignature_of Sample.Lyric_of before new_executor)%Q).
Proof.
  assert (Hfit : events_fit Sample.Pitch_accepts Sample.Key_accepts
                   Sample.TimeSignature_of Sample.Lyric_of
                   Examples.with_meter new_executor).
  { intros before e after H Hm.
    destruct before as [|a [|b [|c [|d before]]]]; cbn in H; inversion H; subst;
      try discriminate Hm; vm_compute; discriminate. }
  split; [exact Hfit|].
  exact (proj1 (measure_within_capacity Sample.Pitch_accepts Sample.Key_accepts
                  Sample.TimeSignature_of Sample.Lyric_of)
           Examples.with_meter "meter" new_executor new_executor
           Examples.with_meter_score eq_refl Hfit
           _ Examples.with_meter_measure (or_introl eq_refl) (or_introl eq_refl)).
Defined.

Lemma tied_note_raises_witness :
  tied Examples.tied_half = true
  /\ Sample.Pitch_accepts (pitch Examples.tied_half) = true
  /\ Sample.create_score_from_elements
       [Note Examples.tied_half; Note (Examples.plain "D4"); Note (Examples.plain "E4")]
       "tie" new_executor
     = (Raised AttributeError, new_executor).
Proof.
  split; [reflexivity|]. split; [reflexivity|].
  exact (proj1 (tied_note_raises Sample.Pitch_accepts Sample.Key_accepts
                  Sample.TimeSignature_of Sample.Lyric_of)
           Examples.tied_half (Examples.plain "D4") (Examples.plain "E4")
           "tie" new_executor eq_refl eq_refl).
Defined.

(** * The properties of the parser and the builder on concrete inputs *)

Lemma parse_of_comments_witness :
  forallb skipped_line (PyStr.split_char Re.newline "  # a comment") = true
  /\ fst (parse "  # a comment" new_parser) = Returned [].
Proof.
  split; [reflexivity|].
  exact (parse_of_comments "  # a comment" new_parser eq_refl).
Defined.

Lemma tokenize_plain_line_witness :
  plain "C4 q  D4" = true /\ _tokenize "C4 q  D4" = PyStr.split_ws "C4 q  D4".
Proof.
  split; [reflexivity|].
  exact (tokenize_plain_line "C4 q  D4" eq_refl).
Defined.

Lemma duration_token_round_trip_witness :
  _parse_duration_token "H." = (Some HALF, true)
  /\ (PyStr.lower "H." = duration_token HALF true
      \/ PyStr.lower "H." = (duration_token HALF true ++ String Re.newline "")%string).
Proof.
  split; [reflexivity|].
  exact (proj2 duration_token_round_trip "H." HALF true eq_refl).
Defined.

Lemma note_tokens_witness :
  _is_pitch "c#4" = true
  /\ no_quote "la" = true
  /\ _parse_note ["c#4"; duration_token HALF true; quoted "la"; "D4"]
     = Returned (Some (mkParsedNote (PyStr.upper "c#4") HALF true (Some "la") false false), 3).
Proof.
  split; [reflexivity|]. split; [reflexivity|].
  exact (proj1 (note_tokens "c#4" ["D4"] eq_refl) HALF true "la" eq_refl).
Defined.

Lemma command_line_witness :
  In "key" command_keywords
  /\ PyStr.lower "KEY" = "key"
  /\ all_space "  " = true
  /\ no_newline "G major" = true
  /\ PyStr.strip "G major" = "G major"
  /\ _parse_line ("KEY" ++ String ":" ("  " ++ "G major")) 1
     = Returned [Command (mkParsedCommand "key" "G major")].
Proof.
  split; [left; reflexivity|]. repeat (split; [reflexivity|]).
  exact (command_line "key" "KEY" "  " "G" " major" 1
           (or_introl eq_refl) eq_refl eq_refl eq_refl eq_refl).
Defined.

Lemma chord_line_witness :
  no_bracket " C4 x e4 " = true
  /\ no_newline " C4 x e4 " = true
  /\ fst (parse (String "[" (" C4 x e4 " ++ "]")) new_parser)
     = Returned
         (if is_nil (chord_notes (PyStr.strip " C4 x e4 ")) then []
          else [Chord (mkParsedChord (chord_notes (PyStr.strip " C4 x e4 "))
                         QUARTER false None)]).
Proof.
  split; [reflexivity|]. split; [reflexivity|].
  exact (chord_line " C4 x e4 " new_parser eq_refl eq_refl).
Defined.

Lemma build_without_ignored_elements_witness :
  ~ In (PyStr.lower "Dynamics") command_keywords
  /\ no_effect Sample.Key_accepts Sample.TimeSignature_of
       (Command (mkParsedCommand "Dynamics" "f")) = true.
Proof.
  assert (H : ~ In (PyStr.lower "Dynamics") command_keywords).
  { vm_compute. intros [H|[H|[H|[H|[]]]]]; discriminate H. }
  split; [exact H|].
  exact (proj2 (build_without_ignored_elements Sample.Pitch_accepts Sample.Key_accepts
                  Sample.TimeSignature_of Sample.Lyric_of)
           (mkParsedCommand "Dynamics" "f") H).
Defined.

Lemma build_returns_or_raises_witness :
  forallb (acceptable Sample.Pitch_accepts Sample.Key_accepts Sample.TimeSignature_of
             new_executor)
    [Note (Examples.plain "C4"); Note (Examples.plain "H9")] = false
  /\ exists x,
      Sample.create_score_from_elements
        [Note (Examples.plain "C4"); Note (Examples.plain "H9")] "t" new_executor
      = (Raised x, new_executor)
      /\ (x = Music21Exception \/ x = AttributeError \/ x = ZeroDivisionError).
Proof.
  split; [reflexivity|].
  exact (proj2 (build_returns_or_raises Sample.Pitch_accepts Sample.Key_accepts
                  Sample.TimeSignature_of Sample.Lyric_of
                  [Note (Examples.plain "C4"); Note (Examples.plain "H9")] "t" new_executor)
           eq_refl).
Defined.

Lemma measures_numbered_from_one_witness :
  Sample.create_score_from_elements Examples.with_barline "bar" new_executor
  = (Returned Examples.with_barline_score, new_executor)
  /\ exists p, parts Examples.with_barline_score = [p]
               /\ map number (measures p) = seq 1 (List.length (measures p)).
Proof.
  split; [reflexivity|].
  exact (measures_numbered_from_one Sample.Pitch_accepts Sample.Key_accepts
           Sample.TimeSignature_of Sample.Lyric_of
           Examples.with_barline "bar" new_executor new_executor
           Examples.with_barline_score eq_refl).
Defined.

Lemma elements_follow_one_another_witness :
  Sample.create_score_from_elements Examples.with_meter "meter" new_executor
  = (Returned Examples.with_meter_score, new_executor)
  /\ onsets_from 0 (elements Examples.with_meter_measure).
Proof.
  split; [reflexivity|].
  exact (proj1 (elements_follow_one_another Sample.Pitch_accepts Sample.Key_accepts
                  Sample.TimeSignature_of Sample.Lyric_of)
           Examples.with_meter "meter" new_executor new_executor
           Examples.with_meter_score eq_refl
           _ Examples.with_meter_measure (or_introl eq_refl) (or_introl eq_refl)).
Defined.

Lemma notes_of_the_score_witness :
  Sample.create_score_from_elements Examples.with_barline "bar" new_executor
  = (Returned Examples.with_barline_score, new_executor)
  /\ map note_pitch (score_notes Examples.with_barline_score)
     = map pitch (note_elements Examples.with_barline)
  /\ map note_quarterLength (score_notes Examples.with_barline_score)
     = map (fun n => elem_length (Note n)) (note_elements Examples.with_barline)
  /\ map note_lyric (score_notes Examples.with_barline_score)
     = map (fun n => set_lyric Sample.Lyric_of (lyric n))
         (note_elements Examples.with_barline).
Proof.
  split; [reflexivity|].
  exact (notes_of_the_score Sample.Pitch_accepts Sample.Key_accepts
           Sample.TimeSignature_of Sample.Lyric_of
           Examples.with_barline "bar" new_executor new_executor
           Examples.with_barline_score eq_refl).
Defined.

Lemma ties_of_the_score_witness :
  Sample.create_score_from_elements Examples.with_barline "bar" new_executor
  = (Returned Examples.with_barline_score, new_executor)
  /\ new_executor = new_executor
  /\ Forall (fun n => tied n = false) (note_elements Examples.with_barline)
  /\ (note_elements Examples.with_barline <> [] -> _pending_tie new_executor = None)
  /\ Forall (fun n => note_tie n = None) (score_notes Examples.with_barline_score).
Proof.
  split; [reflexivity|].
  exact (ties_of_the_score Sample.Pitch_accepts Sample.Key_accepts
           Sample.TimeSignature_of Sample.Lyric_of
           Examples.with_barline "bar" new_executor new_executor
           Examples.with_barline_score eq_refl).
Defined.

Lemma parsed_text_builds_no_tie_witness :
  execute_commands Sample.Pitch_accepts Sample.Key_accepts Sample.TimeSignature_of
    Sample.Lyric_of (parsed_elements "C4 q | D4 q") "bar"
  = Returned Examples.with_barline_score
  /\ Forall (fun n => note_tie n = None) (score_notes Examples.with_barline_score).
Proof.
  split; [reflexivity|].
  exact (proj2 (parsed_text_builds_no_tie Sample.Pitch_accepts Sample.Key_accepts
                  Sample.TimeSignature_of Sample.Lyric_of "C4 q | D4 q" "bar")
           Examples.with_barline_score eq_refl).
Defined.


Lemma tempo_of_first_digits_witness :
  no_digit "about " = true
  /\ all_digits "120" = true
  /\ "120" <> ""
  /\ no_digit_first " bpm" = true
  /\ _parse_tempo ("about " ++ "120" ++ " bpm")
     = (if (String.length "120" <=? int_max_str_digits)%nat
        then Some (EMetronomeMark (PyStr.digits_value 0 "120"))
        else None).
Proof.
  assert (H : "120" <> "") by discriminate.
  repeat (split; [reflexivity|]). split; [exact H|]. split; [reflexivity|].
  exact (proj1 tempo_of_first_digits "about " "120" " bpm" eq_refl eq_refl H eq_refl).
Defined.

Lemma key_signature_words_witness :
  PyStr.isspace "B" = false
  /\ no_space "Maj" = true
  /\ "Maj" <> ""
  /\ In (PyStr.lower "Maj", "major") mode_words
  /\ In ("b"%char, "-"%char) accidentals
  /\ _parse_key_signature Sample.Key_accepts ("Bb" ++ String " " "Maj")
     = key_or_direct Sample.Key_accepts "B-" "major" ("Bb" ++ String " " "Maj").
Proof.
  assert (H : "Maj" <> "") by discriminate.
  assert (Hm : In (PyStr.lower "Maj", "major") mode_words) by (right; left; reflexivity).
  assert (Ha : In ("b"%char, "-"%char) accidentals) by (right; left; reflexivity).
  repeat (split; [reflexivity|]). split; [exact H|]. split; [exact Hm|]. split; [exact Ha|].
  exact (proj1 (key_signature_words Sample.Key_accepts "B" "Maj" "major"
                  eq_refl eq_refl H Hm)
           "b"%char "-"%char "" Ha eq_refl).
Defined.

Lemma tokens_read_in_turn_witness :
  PyStr.lower "R" = "r"
  /\ tokens_elements ("R" :: [duration_token HALF false; "C4"])
     = Rest (mkParsedRest HALF false) :: tokens_elements ["C4"].
Proof.
  split; [reflexivity|].
  exact (proj1 (proj1 (tokens_read_in_turn "R" [duration_token HALF false; "C4"]) eq_refl)
           HALF false ["C4"] eq_refl).
Defined.

Lemma pitch_name_and_octave_witness :
  PyStr.isdigit "3" = true
  /\ _is_pitch "bb3" = true
  /\ octave (ParsedNote_of_pitch (PyStr.upper "bb3")) = Returned 3%N
  /\ pitch_name (ParsedNote_of_pitch (PyStr.upper "bb3")) = "B".
Proof.
  split; [reflexivity|]. split; [reflexivity|].
  pose proof (pitch_name_and_octave "b" "b" "3" eq_refl eq_refl) as H.
  exact (conj (proj1 H) (proj1 (proj2 H))).
Defined.

Lemma capacity_of_last_time_command_witness :
  existsb is_time_command [Rest (mkParsedRest HALF true)] = false
  /\ (capacity_in_force Sample.Pitch_accepts Sample.Key_accepts Sample.TimeSignature_of
        Sample.Lyric_of
        ([Note (Examples.plain "C4")]
           ++ Command (mkParsedCommand "time" "3/4") :: [Rest (mkParsedRest HALF true)])
        new_executor
      == inject_Z 3 * (4 / 1))%Q.
Proof.
  split; [reflexivity|].
  exact (proj1 (proj2 (capacity_of_last_time_command Sample.Pitch_accepts
                         Sample.Key_accepts Sample.TimeSignature_of Sample.Lyric_of)
                  [Note (Examples.plain "C4")] [Rest (mkParsedRest HALF true)]
                  (mkParsedCommand "time" "3/4")
                  (mkTimeSignature "3/4" 3 (Some 1%Q)) 1%Q
                  new_executor new_executor _ eq_refl eq_refl eq_refl eq_refl)).
Defined.
